(** * Time-to-hire brackets and weighted-spend CAC (app.py)

    A shallow embedding of the computational core of [app.py]:

    - [compute_time_to_hire]  (app.py, lines 69-81)
    - [month_wise_brackets]   (app.py, lines 84-88)
    - [cac_rows]              (app.py, lines 174-191)

    Conventions of the embedding.

    - A pandas data frame is the list of its rows, in row order; a row is a
      record holding the columns the code reads.
    - A nullable column is an [option]; [None] is NaT / NaN.
    - [ts.to_period("M")] is a monthly pandas [Period]; a monthly period is
      its ordinal, the number of months since 1970-01.  The time stamp
      [ts.to_period("M").to_timestamp()] is the first instant of that
      month, so it is represented by the same ordinal: comparing two such
      time stamps compares the ordinals, and adding [pd.DateOffset(months=k)]
      adds [k].
    - Python floats are idealised as exact rationals ([Qc], canonical
      fractions with Leibniz equality); there [/] is exact division.
      Where rounding decides a statement, the division of line 81 and the
      sum of its results are also given in binary64
      ([compute_time_to_hire_binary64], [sum_binary64]).
    - An [int64] column sums with wrap-around ([sum_int64]). *)

From Corelib Require PrimFloat.
From Stdlib Require Import ZArith QArith Qround Qcanon Lia.
From stdpp Require Import base decidable option numbers list sorting strings
  pretty gmap.

Local Open Scope Z_scope.
#[local] Set Warnings "-clear-no-such-hyp".

(** ** Time stamps and monthly periods *)

Inductive Month : Set :=
  Jan | Feb | Mar | Apr | May | Jun | Jul | Aug | Sep | Oct | Nov | Dec.

Record Timestamp : Set := { year : Z; month : Month; day : Z }.

Definition month_number (m : Month) : Z :=
  match m with
  | Jan => 1 | Feb => 2 | Mar => 3 | Apr => 4 | May => 5 | Jun => 6
  | Jul => 7 | Aug => 8 | Sep => 9 | Oct => 10 | Nov => 11 | Dec => 12
  end.

(** [t.to_period("M")], as the ordinal of the monthly period. *)
Definition to_period_M (t : Timestamp) : Z :=
  (year t - 1970) * 12 + (month_number (month t) - 1).

(** Calendar month of a monthly period. *)
Definition period_month (p : Z) : Month :=
  match p `mod` 12 with
  | 0 => Jan | 1 => Feb | 2 => Mar | 3 => Apr | 4 => May | 5 => Jun
  | 6 => Jul | 7 => Aug | 8 => Sep | 9 => Oct | 10 => Nov | _ => Dec
  end.

(** [strftime("%b")]: the abbreviated month name. *)
Definition month_abbr (m : Month) : string :=
  match m with
  | Jan => "Jan" | Feb => "Feb" | Mar => "Mar" | Apr => "Apr"
  | May => "May" | Jun => "Jun" | Jul => "Jul" | Aug => "Aug"
  | Sep => "Sep" | Oct => "Oct" | Nov => "Nov" | Dec => "Dec"
  end.

(** ** Numbers *)

Definition Qc_of_nat (n : nat) : Qc := Qc_of_Z (Z.of_nat n).

(** The sum of a column or list of numbers, accumulated from the left
    starting at [0], as [weighted_spend += ...] and [.sum()] do. *)
Definition sum_Qc (l : list Qc) : Qc := foldl Qcplus 0%Qc l.

(** ** Frames *)

(** The columns of [df] / [filtered_df] read by the bracket computation.
    [application_date] is never NaT: [load_main_data] drops such rows
    (line 38). *)
Record Application : Set := {
  application_date : Timestamp;
  successful_date : option Timestamp
}.

(** A row of the local [df] of [compute_time_to_hire] after lines 70-72:
    the hire date is present and both month columns are computed. *)
Record HiredRow : Set := {
  application_month : Z;
  hire_month : Z
}.

(** Lines 70-72: keep the rows with [successful_date.notna()], add the
    columns [application_month] and [hire_month]. *)
Definition hired_rows (df : list Application) : list HiredRow :=
  omap (λ r,
          h ← successful_date r;
          Some {| application_month := to_period_M (application_date r);
                  hire_month := to_period_M h |}) df.

(** [Series.unique()]: distinct values in order of first appearance. *)
Definition unique (l : list Z) : list Z :=
  foldl (λ seen x, if decide (x ∈ seen) then seen else seen ++ [x]) [] l.

(** [sorted(...)] on month stamps. *)
Definition sorted (l : list Z) : list Z := merge_sort Z.le l.

(** [df.groupby(key)], iterated: the distinct keys in ascending order, each
    with the rows that carry it, in row order. *)
Definition groupby {A} (key : A → Z) (df : list A) : list (Z * list A) :=
  (λ k, (k, filter (λ r, key r = k) df)) <$> sorted (unique (key <$> df)).

(** ** compute_time_to_hire (lines 69-81) *)

(** Line 79: the rows of [group] whose hire month is in [[start, end)]. *)
Definition window_count (group : list HiredRow) (start end_ : Z) : nat :=
  length (filter (λ r, start ≤ hire_month r ∧ hire_month r < end_) group).

(** Lines 76-80, the loop over [offset] for one cohort.  The update
    [bracket_counts[offset] += count] is always in range: [offset] runs
    over [range(num_months)] and the list has [num_months] entries. *)
Definition cohort_step (num_months : nat) (bracket_counts : list nat)
    (cohort : Z * list HiredRow) : list nat :=
  let '(cohort_month, group) := cohort in
  foldl (λ bracket_counts offset,
           let start := cohort_month + Z.of_nat offset in
           let end_ := cohort_month + Z.of_nat (offset + 1) in
           let count := window_count group start end_ in
           alter (λ c, (c + count)%nat) offset bracket_counts)
        bracket_counts (seq 0 num_months).

Definition bracket_counts (df : list HiredRow) (num_months : nat) : list nat :=
  foldl (cohort_step num_months) (replicate num_months 0%nat)
        (groupby application_month df).

Definition compute_time_to_hire (df : list Application) (num_months : nat)
    : list Qc :=
  let df := hired_rows df in
  let total_hires := length df in
  (λ c, if decide (0 < total_hires)%nat
        then (Qc_of_nat c / Qc_of_nat total_hires)%Qc else 0%Qc)
    <$> bracket_counts df num_months.

(** ** The brackets in binary64 *)

(** A count as a binary64 number; exact below 2^53, far above the length
    of any frame. *)
Fixpoint binary64_of_nat (n : nat) : PrimFloat.float :=
  match n with
  | O => PrimFloat.zero
  | S n => PrimFloat.add (binary64_of_nat n) PrimFloat.one
  end.

(** Lines 69-81 with the division [c / total_hires] of line 81 carried out
    in binary64, as Python does for two integers. *)
Definition compute_time_to_hire_binary64 (df : list Application)
    (num_months : nat) : list PrimFloat.float :=
  let df := hired_rows df in
  let total_hires := length df in
  (λ c, if decide (0 < total_hires)%nat
        then PrimFloat.div (binary64_of_nat c) (binary64_of_nat total_hires)
        else PrimFloat.zero)
    <$> bracket_counts df num_months.

(** [sum(entries)] in binary64: accumulated from the left, starting at 0. *)
Definition sum_binary64 (l : list PrimFloat.float) : PrimFloat.float :=
  foldl PrimFloat.add PrimFloat.zero l.

(** ** month_wise_brackets (lines 84-88) *)

Definition month_lookup : list string :=
  ["Jan"; "Feb"; "Mar"; "Apr"; "May"; "Jun";
   "Jul"; "Aug"; "Sep"; "Oct"; "Nov"; "Dec"].

(** Line 43: [df['month_name'] = df['application_date'].dt.strftime("%b")]. *)
Definition month_name (r : Application) : string :=
  month_abbr (month (application_date r)).

Definition month_wise_brackets (filtered_df : list Application)
    : gmap string (list Qc) :=
  foldl (λ (d : gmap string (list Qc)) month,
           let month_data := filter (λ r, month_name r = month) filtered_df in
           <[month := if decide (month_data ≠ [])
                      then compute_time_to_hire month_data 12
                      else replicate 12 0%Qc]> d)
        ∅ month_lookup.

(** ** The bracket algorithm as the specification words it

    Discard the records without hire date; group the rest by the month of
    the application date; for each cohort key [c] and offset [k] count the
    records of the cohort whose hire month is in [[c + k, c + (k+1))] and
    accumulate per bracket; divide by the number of remaining records, or
    give [0] everywhere when there is none. *)

Definition hire_in_window (c : Z) (k : nat) (r : Application) : Prop :=
  match successful_date r with
  | Some h => c + Z.of_nat k ≤ to_period_M h ∧ to_period_M h < c + (Z.of_nat k + 1)
  | None => False
  end.

#[global] Instance hire_in_window_dec c k r : Decision (hire_in_window c k r).
Proof. unfold hire_in_window. destruct (successful_date r); apply _. Defined.

Definition computeBrackets_spec (records : list Application) (horizon : nat)
    : list Qc :=
  let remaining := filter (λ r, successful_date r ≠ None) records in
  let totalHires := length remaining in
  let cohort_keys :=
    remove_dups ((λ r, to_period_M (application_date r)) <$> remaining) in
  let cohort c :=
    filter (λ r, to_period_M (application_date r) = c) remaining in
  let accumulated k :=
    sum_list_with (λ c, length (filter (hire_in_window c k) (cohort c)))
                  cohort_keys in
  (λ k, if decide (totalHires = 0%nat) then 0%Qc
        else (Qc_of_nat (accumulated k) / Qc_of_nat totalHires)%Qc)
    <$> seq 0 horizon.

(** ** The cost calculator (lines 174-191) *)

(** A row of [spend_df] after the aggregation of line 113: one total per
    spend month.  [groupby] drops null keys and [sum] skips NaN, so both
    columns hold values. *)
Record SpendRow : Set := {
  spend_month : Z;
  monthly_spend : Qc
}.

(** A row of [hire_df]: the month column may be NaT (the loop header
    applies [dropna]); [hires] is an integer count column. *)
Module HireAgg.
Record row : Set := {
  hire_month : option Z;
  hires : Z
}.
End HireAgg.

(** The exact sum of a list of integers. *)
Definition sum_Z (l : list Z) : Z := foldl Z.add 0 l.

(** An integer as an [int64] holds it: reduced modulo 2^64 into
    [[-2^63, 2^63)]. *)
Definition wrap_int64 (z : Z) : Z := (z + 2 ^ 63) `mod` 2 ^ 64 - 2 ^ 63.

(** [Series.sum()] on an [int64] column: the accumulator is an [int64] and
    wraps around without error. *)
Definition sum_int64 (l : list Z) : Z :=
  foldl (λ acc x, wrap_int64 (acc + x)) 0 l.

(** Line 177: [int(hire_df[hire_df['hire_month'] == hire_month]['hires'].sum())]. *)
Definition hires_in (hire_df : list HireAgg.row) (hire_month : Z) : Z :=
  sum_int64 (HireAgg.hires
               <$> filter (λ r, HireAgg.hire_month r = Some hire_month) hire_df).

(** The hires of a month added up without wrap-around. *)
Definition exact_hires (hire_df : list HireAgg.row) (hire_month : Z) : Z :=
  sum_Z (HireAgg.hires
           <$> filter (λ r, HireAgg.hire_month r = Some hire_month) hire_df).

(** Line 181: [spend_df[spend_df['spend_month'] == spend_month]['monthly_spend'].sum()]:
    the sum over an empty selection is [0]. *)
Definition spend_in (spend_df : list SpendRow) (m : Z) : Qc :=
  sum_Qc (monthly_spend <$> filter (λ r, spend_month r = m) spend_df).

(** Line 183: [month_wise_brackets.get(month_name, [0]*12)[i]].  The result
    is [None] where Python raises [IndexError]. *)
Definition weight_at (month_wise_brackets : gmap string (list Qc))
    (month_name : string) (i : nat) : option Qc :=
  default (replicate 12 0%Qc) (month_wise_brackets !! month_name) !! i.

(** Lines 180-184: one turn of the look-back loop.  [acc] is the value of
    [weighted_spend] so far, or [None] once an exception was raised. *)
Definition look_back_step (spend_df : list SpendRow)
    (month_wise_brackets : gmap string (list Qc)) (hire_month : Z)
    (acc : option Qc) (i : nat) : option Qc :=
  weighted_spend ← acc;
  let spend_month := hire_month - Z.of_nat i in
  let spend := spend_in spend_df spend_month in
  let month_name := month_abbr (period_month spend_month) in
  weight ← weight_at month_wise_brackets month_name i;
  Some (weighted_spend + spend * weight)%Qc.

(** Lines 178-184: the look-back loop. *)
Definition weighted_spend_loop (spend_df : list SpendRow)
    (month_wise_brackets : gmap string (list Qc)) (hire_month : Z)
    : option Qc :=
  foldl (look_back_step spend_df month_wise_brackets hire_month)
        (Some 0%Qc) (seq 0 12).

(** Rounding to the nearest integer, ties to the even one. *)
Definition round_half_even (q : Q) : Z :=
  let f := Qfloor q in
  match Qcompare (q - inject_Z f) (1 # 2) with
  | Lt => f
  | Gt => f + 1
  | Eq => if Z.even f then f else f + 1
  end.

(** [round(x, 2)]. *)
Definition round2 (x : Qc) : Qc :=
  Q2Qc (inject_Z (round_half_even (x * 100)) / 100).

(** The cell ['CAC (AED per Hire)']: a number or the string ['N/A']. *)
Inductive CacCell : Set :=
  | CacNumber (x : Qc)
  | CacNA.

(** A dictionary appended to [cac_rows].  ['Hire Month'] holds the month;
    [strftime('%Y-%m')] prints it, one text per month. *)
Record CacRow : Set := {
  Hire_Month : Z;
  Total_Hires : Z;
  Weighted_Spend : Qc;
  CAC : CacCell
}.

(** Line 185. *)
Definition cac_of (weighted_spend : Qc) (hires : Z) : option Qc :=
  if decide (0 < hires) then Some (weighted_spend / Qc_of_Z hires)%Qc else None.

(** Lines 177-191: the body of the loop over the hire months. *)
Definition cac_row (hire_df : list HireAgg.row) (spend_df : list SpendRow)
    (month_wise_brackets : gmap string (list Qc)) (hire_month : Z)
    : option CacRow :=
  let hires := hires_in hire_df hire_month in
  weighted_spend ← weighted_spend_loop spend_df month_wise_brackets hire_month;
  let cac := cac_of weighted_spend hires in
  Some {| Hire_Month := hire_month;
          Total_Hires := hires;
          Weighted_Spend := round2 weighted_spend;
          CAC := match cac with
                 | Some cac => CacNumber (round2 cac)
                 | None => CacNA
                 end |}.

(** Line 176: [sorted(hire_df['hire_month'].dropna().unique())]. *)
Definition hire_months (hire_df : list HireAgg.row) : list Z :=
  sorted (unique (omap HireAgg.hire_month hire_df)).

(** Lines 174-191.  [None] is an uncaught exception. *)
Definition cac_rows (hire_df : list HireAgg.row) (spend_df : list SpendRow)
    (month_wise_brackets : gmap string (list Qc)) : option (list CacRow) :=
  mapM (cac_row hire_df spend_df month_wise_brackets) (hire_months hire_df).

(** A kernel table whose vectors have the twelve entries the look-back
    loop reads. *)
Definition kernel_ok (month_wise_brackets : gmap string (list Qc)) : Prop :=
  ∀ name l, month_wise_brackets !! name = Some l → (12 ≤ length l)%nat.

(** The weight the loop reads for a month name and an offset below 12. *)
Definition kernel_weight (month_wise_brackets : gmap string (list Qc))
    (month_name : string) (i : nat) : Qc :=
  default 0%Qc (weight_at month_wise_brackets month_name i).

(** The weighted spend as the specification words it: the sum over
    [i = 0 .. 11] of the spend of the month [i] months before the hire
    month, times the kernel entry of offset [i] under the name of that
    month. *)
Definition weighted_term (spend_df : list SpendRow)
    (month_wise_brackets : gmap string (list Qc)) (hire_month : Z) (i : nat)
    : Qc :=
  let spend_month := hire_month - Z.of_nat i in
  (spend_in spend_df spend_month
   * kernel_weight month_wise_brackets
       (month_abbr (period_month spend_month)) i)%Qc.

Definition weighted_spend_formula (spend_df : list SpendRow)
    (month_wise_brackets : gmap string (list Qc)) (hire_month : Z) : Qc :=
  sum_Qc (weighted_term spend_df month_wise_brackets hire_month <$> seq 0 12).

(** The row reported for a hire month, from the formula. *)
Definition expected_row (hire_df : list HireAgg.row) (spend_df : list SpendRow)
    (month_wise_brackets : gmap string (list Qc)) (hire_month : Z) : CacRow :=
  let hires := hires_in hire_df hire_month in
  let weighted_spend :=
    weighted_spend_formula spend_df month_wise_brackets hire_month in
  {| Hire_Month := hire_month;
     Total_Hires := hires;
     Weighted_Spend := round2 weighted_spend;
     CAC := if decide (0 < hires)
            then CacNumber (round2 (weighted_spend / Qc_of_Z hires))
            else CacNA |}.

(** ** Scenarios *)

(** The monthly period of a year and month. *)
Definition ym (y : Z) (m : Month) : Z :=
  to_period_M {| year := y; month := m; day := 1 |}.

Definition application (y : Z) (m : Month) (d : Z) (hired : option Timestamp)
    : Application :=
  {| application_date := {| year := y; month := m; day := d |};
     successful_date := hired |}.

(** Ten applications in January 2024; four hired in February, six never. *)
Definition scenario_A : list Application :=
  replicate 4 (application 2024 Jan 10
                 (Some {| year := 2024; month := Feb; day := 5 |}))
  ++ replicate 6 (application 2024 Jan 20 None).

(** Four hires with lags 0, 2, -1 (hired before the application month) and
    14 (beyond any horizon), and one application without hire. *)
Definition scenario_mixed : list Application :=
  [ application 2024 Jan 3 (Some {| year := 2024; month := Jan; day := 30 |});
    application 2024 Jan 9 (Some {| year := 2024; month := Mar; day := 1 |});
    application 2024 Mar 5 (Some {| year := 2024; month := Feb; day := 2 |});
    application 2023 Dec 31 (Some {| year := 2025; month := Feb; day := 7 |});
    application 2024 Feb 14 None ].

(** Nine applications of January 2024, all hired within five months: one
    in January, five in February, one each in March, April and May. *)
Definition scenario_ninths : list Application :=
  [ application 2024 Jan 2 (Some {| year := 2024; month := Jan; day := 20 |}) ]
  ++ replicate 5 (application 2024 Jan 3
                    (Some {| year := 2024; month := Feb; day := 10 |}))
  ++ [ application 2024 Jan 4 (Some {| year := 2024; month := Mar; day := 1 |});
       application 2024 Jan 5 (Some {| year := 2024; month := Apr; day := 1 |});
       application 2024 Jan 6 (Some {| year := 2024; month := May; day := 1 |}) ].

(** Two hire rows of one month whose counts, 2^62 each, add up to 2^63. *)
Definition scenario_overflow_hires : list HireAgg.row :=
  [ {| HireAgg.hire_month := Some (ym 2024 Mar); HireAgg.hires := 2 ^ 62 |};
    {| HireAgg.hire_month := Some (ym 2024 Mar); HireAgg.hires := 2 ^ 62 |} ].

(** Hire month 2024-03 with 10 hires; spend 100, 200, 300 in 2024-01..03;
    kernel 0.1 for Jan at offset 2, 0.3 for Feb at offset 1, 0.5 for Mar at
    offset 0 and zero elsewhere. *)
Definition scenario_C_hires : list HireAgg.row :=
  [ {| HireAgg.hire_month := Some (ym 2024 Mar); HireAgg.hires := 10 |} ].

Definition scenario_C_spend : list SpendRow :=
  [ {| spend_month := ym 2024 Jan; monthly_spend := Qc_of_Z 100 |};
    {| spend_month := ym 2024 Feb; monthly_spend := Qc_of_Z 200 |};
    {| spend_month := ym 2024 Mar; monthly_spend := Qc_of_Z 300 |} ].

Definition scenario_C_kernel : gmap string (list Qc) :=
  <["Jan" := <[2%nat := Q2Qc (1 # 10)]> (replicate 12 0%Qc)]>
  (<["Feb" := <[1%nat := Q2Qc (3 # 10)]> (replicate 12 0%Qc)]>
  (<["Mar" := <[0%nat := Q2Qc (5 # 10)]> (replicate 12 0%Qc)]> ∅)).



(** Number of hired rows whose hire month is exactly [k] months after the
    application month. *)
Definition lag_count (df : list HiredRow) (k : nat) : nat :=
  length (filter (λ r, hire_month r - application_month r = Z.of_nat k) df).


(** ** The sidebar selection and the three frames (lines 47-66, 106-113,
    132-138) *)

(** The values chosen in the sidebar that the core reads. *)
Record Selection : Set := {
  nationality : string;
  location : string;
  countries : list string;
  selected_month_range : Timestamp * Timestamp
}.

(** [column.isin(values)]; a null cell is in no list of names. *)
Definition isin (cell : option string) (values : list string) : Prop :=
  match cell with
  | Some c => c ∈ values
  | None => False
  end.

#[global] Instance isin_dec cell values : Decision (isin cell values).
Proof. unfold isin. destruct cell; apply _. Defined.

(** [a <= b] on calendar dates. *)
Definition date_le (a b : Timestamp) : Prop :=
  year a < year b
  ∨ (year a = year b
     ∧ (month_number (month a) < month_number (month b)
        ∨ (month_number (month a) = month_number (month b) ∧ day a ≤ day b))).

#[global] Instance date_le_dec a b : Decision (date_le a b).
Proof. unfold date_le. apply _. Defined.

(** Lines 41-42: the first day of the application month, as a date. *)
Definition app_month_date (r : Application) : Timestamp :=
  {| year := year (application_date r);
     month := month (application_date r);
     day := 1 |}.

(** A row of the main frame [df]: the two dates and the segment columns. *)
Module MainDf.
Record row : Set := {
  dates : Application;
  nationality_category : option string;
  location_category : option string;
  country : option string
}.
End MainDf.

(** Lines 60-66. *)
Definition filtered_df (sel : Selection) (df : list MainDf.row)
    : list Application :=
  MainDf.dates
    <$> filter (λ r,
          MainDf.nationality_category r = Some (nationality sel)
          ∧ MainDf.location_category r = Some (location sel)
          ∧ isin (MainDf.country r) (countries sel)
          ∧ date_le (selected_month_range sel).1 (app_month_date (MainDf.dates r))
          ∧ date_le (app_month_date (MainDf.dates r)) (selected_month_range sel).2)
        df.

(** A row of the spend frame as loaded (lines 92-104): the month and the
    summed amount may be null. *)
Module SpendRaw.
Record row : Set := {
  spend_month : option Timestamp;
  country_name : option string;
  nationality_category : option string;
  location_category : option string;
  monthly_spend : option Qc
}.
End SpendRaw.

(** Lines 108-112. *)
Definition select_spend (sel : Selection) (spend_df : list SpendRaw.row)
    : list SpendRaw.row :=
  filter (λ r,
            SpendRaw.nationality_category r = Some (nationality sel)
            ∧ SpendRaw.location_category r = Some (location sel)
            ∧ isin (SpendRaw.country_name r) (countries sel))
         spend_df.

(** Lines 107 and 113: [groupby('spend_month', as_index=False)
    ['monthly_spend'].sum()].  Rows without month belong to no group; the
    sum of a group skips null amounts. *)
Definition keyed_spend (spend_df : list SpendRaw.row)
    : list (Z * option Qc) :=
  omap (λ r, m ← SpendRaw.spend_month r;
             Some (to_period_M m, SpendRaw.monthly_spend r)) spend_df.

Definition aggregate_spend (spend_df : list SpendRaw.row) : list SpendRow :=
  (λ g, {| spend_month := g.1; monthly_spend := sum_Qc (omap snd g.2) |})
    <$> groupby fst (keyed_spend spend_df).

(** The spend rows with a month, one by one and not grouped; a null amount
    counts as 0, as [sum] skips it. *)
Definition ungrouped_spend (spend_df : list SpendRaw.row) : list SpendRow :=
  omap (λ r, m ← SpendRaw.spend_month r;
             Some {| spend_month := to_period_M m;
                     monthly_spend := default 0%Qc (SpendRaw.monthly_spend r) |})
       spend_df.

(** A row of the hire frame as loaded (lines 117-130). *)
Module HireRaw.
Record row : Set := {
  hire_month : option Timestamp;
  country : option string;
  location_category : option string;
  nationality_category : option string;
  hires : Z
}.
End HireRaw.

(** Lines 133-138. *)
Definition hire_frame (sel : Selection) (hire_df : list HireRaw.row)
    : list HireAgg.row :=
  (λ r, {| HireAgg.hire_month := to_period_M <$> HireRaw.hire_month r;
           HireAgg.hires := HireRaw.hires r |})
    <$> filter (λ r,
          isin (HireRaw.country r) (countries sel)
          ∧ HireRaw.location_category r = Some (location sel)
          ∧ HireRaw.nationality_category r = Some (nationality sel))
        hire_df.

(** The rows of the fourth tab, from the frames as loaded and the
    selection. *)
Definition cost_calculator (sel : Selection) (df : list MainDf.row)
    (spend_df : list SpendRaw.row) (hire_df : list HireRaw.row)
    : option (list CacRow) :=
  cac_rows (hire_frame sel hire_df)
           (aggregate_spend (select_spend sel spend_df))
           (month_wise_brackets (filtered_df sel df)).

(** ** The tables of the first two tabs (lines 143-166) *)

(** [f"End of {i+1} Month{'s' if i > 0 else ''}"]. *)
Definition time_bracket_label (i : nat) : string :=
  "End of " +:+ pretty (i + 1)%nat +:+ " Month"
  +:+ (if decide (0 < i)%nat then "s" else "").

(** [f"{x:.1f}"]: one decimal, ties to even. *)
Definition format_1f (x : Qc) : string :=
  let n := Z.abs (round_half_even (x * 10)) in
  (if decide (x < 0)%Qc then "-" else "")
  +:+ pretty (n `div` 10) +:+ "." +:+ pretty (n `mod` 10).

(** [f"{p * 100:.1f}%"]. *)
Definition format_percentage (p : Qc) : string :=
  format_1f (p * Qc_of_Z 100) +:+ "%".

(** [pd.DataFrame({name1: col1, name2: col2})]: the rows of the frame, or
    [None] for the [ValueError] raised when the columns differ in length. *)
Definition data_frame {A B} (col1 : list A) (col2 : list B)
    : option (list (A * B)) :=
  if decide (length col1 = length col2) then Some (zip col1 col2) else None.

(** Lines 145-148. *)
Definition summary (filtered_df : list Application) (num_months : nat)
    : option (list (string * string)) :=
  data_frame (time_bracket_label <$> seq 0 num_months)
             (format_percentage <$> compute_time_to_hire filtered_df num_months).

(** Line 161: [month_wise_brackets.get(m, [0.0] * 12)[:num_months]]. *)
Definition percentages (month_wise_brackets : gmap string (list Qc))
    (m : string) (num_months : nat) : list Qc :=
  take num_months (default (replicate 12 0%Qc) (month_wise_brackets !! m)).

(** Lines 161-165. *)
Definition df_m (month_wise_brackets : gmap string (list Qc)) (m : string)
    (num_months : nat) : option (list (string * string)) :=
  data_frame (time_bracket_label <$> seq 0 num_months)
             (format_percentage
                <$> percentages month_wise_brackets m num_months).

(** ** Frames as loaded, for the checks *)

(** A selection and three small frames as loaded: rows of the selected
    segment, of another nationality, of a country that is not selected,
    and rows with null cells. *)
Definition scenario_sel : Selection :=
  {| nationality := "N1"; location := "L1"; countries := ["AE"; "SA"];
     selected_month_range :=
       ({| year := 2023; month := Jan; day := 1 |},
        {| year := 2024; month := Dec; day := 1 |}) |}.

Definition scenario_main : list MainDf.row :=
  [ {| MainDf.dates := application 2024 Jan 10
                         (Some {| year := 2024; month := Feb; day := 5 |});
       MainDf.nationality_category := Some "N1";
       MainDf.location_category := Some "L1";
       MainDf.country := Some "AE" |};
    {| MainDf.dates := application 2024 Jan 12 None;
       MainDf.nationality_category := Some "N1";
       MainDf.location_category := Some "L1";
       MainDf.country := Some "SA" |};
    {| MainDf.dates := application 2024 Jan 15
                         (Some {| year := 2024; month := Jan; day := 25 |});
       MainDf.nationality_category := Some "N2";
       MainDf.location_category := Some "L1";
       MainDf.country := Some "AE" |};
    {| MainDf.dates := application 2022 Jan 15
                         (Some {| year := 2022; month := Jan; day := 25 |});
       MainDf.nationality_category := Some "N1";
       MainDf.location_category := Some "L1";
       MainDf.country := Some "AE" |};
    {| MainDf.dates := application 2024 Feb 1
                         (Some {| year := 2024; month := Mar; day := 3 |});
       MainDf.nationality_category := Some "N1";
       MainDf.location_category := Some "L1";
       MainDf.country := None |} ].

Definition scenario_spend_raw : list SpendRaw.row :=
  [ {| SpendRaw.spend_month := Some {| year := 2024; month := Mar; day := 1 |};
       SpendRaw.country_name := Some "AE";
       SpendRaw.nationality_category := Some "N1";
       SpendRaw.location_category := Some "L1";
       SpendRaw.monthly_spend := Some (Qc_of_Z 100) |};
    {| SpendRaw.spend_month := Some {| year := 2024; month := Mar; day := 1 |};
       SpendRaw.country_name := Some "SA";
       SpendRaw.nationality_category := Some "N1";
       SpendRaw.location_category := Some "L1";
       SpendRaw.monthly_spend := Some (Qc_of_Z 50) |};
    {| SpendRaw.spend_month := Some {| year := 2024; month := Feb; day := 1 |};
       SpendRaw.country_name := Some "AE";
       SpendRaw.nationality_category := Some "N1";
       SpendRaw.location_category := Some "L1";
       SpendRaw.monthly_spend := None |};
    {| SpendRaw.spend_month := None;
       SpendRaw.country_name := Some "AE";
       SpendRaw.nationality_category := Some "N1";
       SpendRaw.location_category := Some "L1";
       SpendRaw.monthly_spend := Some (Qc_of_Z 999) |};
    {| SpendRaw.spend_month := Some {| year := 2024; month := Jan; day := 1 |};
       SpendRaw.country_name := Some "QA";
       SpendRaw.nationality_category := Some "N1";
       SpendRaw.location_category := Some "L1";
       SpendRaw.monthly_spend := Some (Qc_of_Z 10) |} ].

Definition scenario_hire_raw : list HireRaw.row :=
  [ {| HireRaw.hire_month := Some {| year := 2024; month := Mar; day := 1 |};
       HireRaw.country := Some "AE";
       HireRaw.location_category := Some "L1";
       HireRaw.nationality_category := Some "N1";
       HireRaw.hires := 3 |};
    {| HireRaw.hire_month := Some {| year := 2024; month := Feb; day := 1 |};
       HireRaw.country := Some "SA";
       HireRaw.location_category := Some "L1";
       HireRaw.nationality_category := Some "N1";
       HireRaw.hires := 2 |};
    {| HireRaw.hire_month := Some {| year := 2024; month := Mar; day := 1 |};
       HireRaw.country := Some "SA";
       HireRaw.location_category := Some "L1";
       HireRaw.nationality_category := Some "N1";
       HireRaw.hires := 1 |};
    {| HireRaw.hire_month := Some {| year := 2024; month := Mar; day := 1 |};
       HireRaw.country := Some "AE";
       HireRaw.location_category := Some "L2";
       HireRaw.nationality_category := Some "N1";
       HireRaw.hires := 7 |} ].

(** ** Quantities used in the statements *)

(** Whole months from the application month to the hire month. *)
Definition lag (r : Application) : option Z :=
  h ← successful_date r;
  Some (to_period_M h - to_period_M (application_date r)).

#[global] Instance from_option_dec {A} (P : A → Prop) `{∀ x, Decision (P x)}
    (o : option A) : Decision (from_option P False o).
Proof. destruct o; apply _. Defined.

(** The same record [y] years later: both dates keep month and day. *)
Definition shift_years (y : Z) (r : Application) : Application :=
  let shift t := {| year := year t + y; month := month t; day := day t |} in
  {| application_date := shift (application_date r);
     successful_date := shift <$> successful_date r |}.

(** The spend of the twelve months up to and including [hire_month]. *)
Definition window_spend (spend_df : list SpendRow) (hire_month : Z) : Qc :=
  sum_Qc ((λ i, spend_in spend_df (hire_month - Z.of_nat i)) <$> seq 0 12).

(** * Properties *)

(** ** Lists, counting and sums *)

Section sum_facts.
Context {A : Type}.
Implicit Types l : list A.

Lemma sum_list_with_plus (f g : A → nat) l :
  sum_list_with (λ x, f x + g x)%nat l
  = (sum_list_with f l + sum_list_with g l)%nat.
Proof. induction l as [|x l IH]; simpl; lia. Qed.

Lemma sum_list_with_ext (f g : A → nat) l :
  (∀ x, x ∈ l → f x = g x) → sum_list_with f l = sum_list_with g l.
Proof.
  induction l as [|x l IH]; intros Hfg; simpl; [done|].
  rewrite Hfg by left. rewrite IH; [done|].
  intros y Hy. apply Hfg. by right.
Qed.

Lemma sum_list_with_zero (f : A → nat) l :
  (∀ x, x ∈ l → f x = 0%nat) → sum_list_with f l = 0%nat.
Proof.
  induction l as [|x l IH]; intros Hf; simpl; [done|].
  rewrite Hf by left. rewrite IH; [done|].
  intros y Hy. apply Hf. by right.
Qed.

Lemma sum_list_with_fmap {B} (g : B → A) (f : A → nat) (k : list B) :
  sum_list_with f (g <$> k) = sum_list_with (λ x, f (g x)) k.
Proof. induction k as [|x k IH]; [done|]. cbn. by rewrite <-IH. Qed.
End sum_facts.

Section list_facts.
Context {A : Type}.
Implicit Types l : list A.

Lemma length_filter_ext (P Q : A → Prop)
    `{∀ x, Decision (P x)} `{∀ x, Decision (Q x)} l :
  (∀ x, x ∈ l → P x ↔ Q x) → length (filter P l) = length (filter Q l).
Proof.
  induction l as [|x l IH]; intros HPQ; [done|].
  assert (length (filter P l) = length (filter Q l)) as IH'.
  { apply IH. intros y Hy. apply HPQ. by right. }
  rewrite !filter_cons.
  assert (P x ↔ Q x) as Hx by (apply HPQ; left).
  destruct (decide (P x)) as [HP|HP], (decide (Q x)) as [HQ|HQ];
    simpl; try lia; tauto.
Qed.

Lemma length_filter_filter (P Q : A → Prop)
    `{∀ x, Decision (P x)} `{∀ x, Decision (Q x)} l :
  length (filter P (filter Q l)) = length (filter (λ x, Q x ∧ P x) l).
Proof.
  induction l as [|x l IH]; [done|].
  rewrite !filter_cons.
  destruct (decide (Q x)) as [HQ|HQ].
  - rewrite filter_cons.
    destruct (decide (P x)), (decide (Q x ∧ P x)); simpl; try lia; tauto.
  - destruct (decide (Q x ∧ P x)); [tauto|done].
Qed.

Lemma length_filter_all (P : A → Prop) `{∀ x, Decision (P x)} l :
  length (filter P l) = length l ↔ Forall P l.
Proof.
  induction l as [|x l IH]; [by split; [constructor|]|].
  rewrite filter_cons, Forall_cons.
  pose proof (length_filter P l).
  destruct (decide (P x)); simpl; split.
  - intros Hl. split; [done|]. apply IH. lia.
  - intros [_ Hl]. apply IH in Hl. lia.
  - lia.
  - tauto.
Qed.

(** Splitting a count by a key that ranges over a duplicate-free list. *)
Lemma count_by_key (key : A → Z) (P : A → Prop) `{∀ x, Decision (P x)}
    (keys : list Z) l :
  NoDup keys → (∀ x, x ∈ l → key x ∈ keys) →
  sum_list_with (λ c, length (filter (λ x, key x = c ∧ P x) l)) keys
  = length (filter P l).
Proof.
  intros Hnd. induction l as [|x l IH]; intros Hkeys.
  - apply sum_list_with_zero. done.
  - assert (key x ∈ keys) as Hx by (apply Hkeys; left).
    assert (sum_list_with
              (λ c, length (filter (λ x, key x = c ∧ P x) l)) keys
            = length (filter P l)) as IH'.
    { apply IH. intros y Hy. apply Hkeys. by right. }
    clear IH Hkeys.
    rewrite (sum_list_with_ext _
      (λ c, (if decide (key x = c ∧ P x) then 1 else 0)
            + length (filter (λ x, key x = c ∧ P x) l))%nat).
    2:{ intros c _. rewrite filter_cons. by destruct (decide _). }
    rewrite sum_list_with_plus, IH', filter_cons. clear IH'.
    assert (sum_list_with
              (λ c, if decide (key x = c ∧ P x) then 1 else 0)%nat keys
            = if decide (P x) then 1%nat else 0%nat) as ->.
    { induction Hnd as [|c keys Hc Hnd IHk]; [by apply not_elem_of_nil in Hx|].
      simpl. apply elem_of_cons in Hx as [Hx|Hx].
      - rewrite (sum_list_with_zero _ keys).
        + destruct (decide (P x)), (decide (key x = c ∧ P x)); try done; tauto.
        + intros c' Hc'.
          destruct (decide (key x = c' ∧ P x)) as [[Heq _]|]; [|done].
          congruence.
      - rewrite IHk by done.
        destruct (decide (key x = c ∧ P x)) as [[Heq _]|]; [|done].
        congruence. }
    destruct (decide (P x)); simpl; lia.
Qed.
End list_facts.

(** ** unique, sorted and groupby *)

Lemma unique_spec_from (l seen : list Z) :
  NoDup seen →
  let r := foldl (λ seen x, if decide (x ∈ seen) then seen else seen ++ [x])
                 seen l in
  NoDup r ∧ ∀ x, x ∈ r ↔ x ∈ seen ∨ x ∈ l.
Proof.
  revert seen. induction l as [|y l IH]; intros seen Hnd; simpl.
  - split; [done|]. intros x. rewrite elem_of_nil. naive_solver.
  - destruct (decide (y ∈ seen)) as [Hy|Hy].
    + destruct (IH seen Hnd) as [H1 H2]. split; [done|].
      intros x. rewrite H2, elem_of_cons. naive_solver.
    + destruct (IH (seen ++ [y])) as [H1 H2].
      { apply NoDup_app. split_and!; [done| |apply NoDup_singleton].
        intros x Hx ->%list_elem_of_singleton. done. }
      split; [done|]. intros x.
      rewrite H2, elem_of_app, list_elem_of_singleton, elem_of_cons.
      naive_solver.
Qed.

Lemma NoDup_unique l : NoDup (unique l).
Proof. apply (unique_spec_from l []). constructor. Qed.

Lemma elem_of_unique l x : x ∈ unique l ↔ x ∈ l.
Proof.
  destruct (unique_spec_from l []) as [_ H]; [constructor|].
  unfold unique. rewrite H, elem_of_nil. naive_solver.
Qed.

Lemma sorted_Permutation l : sorted l ≡ₚ l.
Proof. apply merge_sort_Permutation. Qed.

Lemma sorted_Sorted l : Sorted Z.le (sorted l).
Proof. apply (Sorted_merge_sort Z.le). Qed.

Lemma NoDup_sorted_unique l : NoDup (sorted (unique l)).
Proof. rewrite sorted_Permutation. apply NoDup_unique. Qed.

Lemma elem_of_sorted_unique l x : x ∈ sorted (unique l) ↔ x ∈ l.
Proof. rewrite sorted_Permutation. apply elem_of_unique. Qed.

(** ** The bracket counts in closed form *)

(** The loop over [offset] adds one window count to each bracket. *)
Lemma offset_loop_lookup (f : nat → nat) (m a : nat) (bc : list nat) (k : nat) :
  foldl (λ bc offset, alter (λ c, (c + f offset)%nat) offset bc) bc (seq a m) !! k
  = if decide (a ≤ k < a + m)%nat
    then (λ c, (c + f k)%nat) <$> bc !! k else bc !! k.
Proof.
  revert a bc. induction m as [|m IH]; intros a bc; simpl.
  - destruct (decide _); [lia|done].
  - rewrite IH. destruct (decide (a = k)) as [->|Hne].
    + rewrite list_lookup_alter_eq.
      destruct (decide (S k ≤ k < S k + m)%nat); [lia|].
      destruct (decide (k ≤ k < k + S m)%nat); [done|lia].
    + rewrite list_lookup_alter_ne by done.
      destruct (decide (S a ≤ k < S a + m)%nat),
               (decide (a ≤ k < a + S m)%nat); try done; lia.
Qed.

Lemma cohort_step_lookup n bc c group k :
  (k < n)%nat →
  cohort_step n bc (c, group) !! k
  = (λ x, (x + window_count group (c + Z.of_nat k) (c + Z.of_nat (k + 1)))%nat)
      <$> bc !! k.
Proof.
  intros Hk. unfold cohort_step.
  rewrite (offset_loop_lookup
             (λ o, window_count group (c + Z.of_nat o) (c + Z.of_nat (o + 1)))).
  destruct (decide _); [done|lia].
Qed.

Lemma cohort_step_length n bc cohort :
  length (cohort_step n bc cohort) = length bc.
Proof.
  destruct cohort as [c group]. unfold cohort_step.
  generalize (seq 0 n). intros offsets. revert bc.
  induction offsets as [|o offsets IH]; intros bc; simpl; [done|].
  by rewrite IH, length_alter.
Qed.

Lemma cohort_fold_length n groups bc :
  length (foldl (cohort_step n) bc groups) = length bc.
Proof.
  revert bc. induction groups as [|g groups IH]; intros bc; cbn [foldl]; [done|].
  by rewrite IH, cohort_step_length.
Qed.

Lemma cohort_fold_lookup n groups bc k :
  (k < n)%nat →
  foldl (cohort_step n) bc groups !! k
  = (λ x, (x + sum_list_with
                 (λ g, window_count g.2 (g.1 + Z.of_nat k)
                                    (g.1 + Z.of_nat (k + 1))) groups)%nat)
      <$> bc !! k.
Proof.
  intros Hk. revert bc.
  induction groups as [|[c group] groups IH]; intros bc; cbn [foldl].
  - destruct (bc !! k); simpl; [f_equal; lia|done].
  - rewrite IH, cohort_step_lookup by done.
    destruct (bc !! k); simpl; [f_equal; lia|done].
Qed.

Lemma bracket_counts_length df n : length (bracket_counts df n) = n.
Proof.
  unfold bracket_counts. by rewrite cohort_fold_length, length_replicate.
Qed.

(** Summed over the cohorts, the window counts of bracket [k] count the
    hired rows at lag [k]. *)
Lemma groupby_window_sum (df : list HiredRow) (k : nat) :
  sum_list_with
    (λ g, window_count g.2 (g.1 + Z.of_nat k) (g.1 + Z.of_nat (k + 1)))
    (groupby application_month df)
  = lag_count df k.
Proof.
  unfold groupby, lag_count.
  set (keys := sorted (unique (application_month <$> df))).
  rewrite sum_list_with_fmap. cbn [fst snd].
  rewrite <-(count_by_key application_month _ keys df).
  - apply sum_list_with_ext. intros c _. unfold window_count.
    rewrite length_filter_filter. apply length_filter_ext.
    intros r _. lia.
  - apply NoDup_sorted_unique.
  - intros r Hr. apply elem_of_sorted_unique. by apply list_elem_of_fmap_2.
Qed.

Lemma bracket_counts_lookup df n k :
  (k < n)%nat → bracket_counts df n !! k = Some (lag_count df k).
Proof.
  intros Hk. unfold bracket_counts.
  rewrite cohort_fold_lookup, lookup_replicate_2, groupby_window_sum by done.
  done.
Qed.

Lemma bracket_counts_closed df n :
  bracket_counts df n = lag_count df <$> seq 0 n.
Proof.
  apply list_eq. intros k. rewrite list_lookup_fmap.
  destruct (decide (k < n)%nat) as [Hk|Hk].
  - by rewrite bracket_counts_lookup, lookup_seq_lt.
  - rewrite lookup_seq_ge by lia. simpl.
    apply lookup_ge_None. rewrite bracket_counts_length. lia.
Qed.

(** ** Rational arithmetic *)

Lemma Qc_of_nat_0 : Qc_of_nat 0 = 0%Qc.
Proof. apply Z2Qc_inj_0. Qed.

Lemma Qc_of_nat_pos n : (0 < n)%nat → (0 < Qc_of_nat n)%Qc.
Proof.
  intros Hn. rewrite <-Z2Qc_inj_0. unfold Qc_of_nat.
  apply (proj1 (Z2Qc_inj_lt _ _)). lia.
Qed.

Lemma Qc_of_nat_le a b : (a ≤ b)%nat → (Qc_of_nat a ≤ Qc_of_nat b)%Qc.
Proof. intros Hab. unfold Qc_of_nat. apply (proj1 (Z2Qc_inj_le _ _)). lia. Qed.

Lemma Qcdiv_0_l (t : Qc) : (0 / t = 0)%Qc.
Proof. unfold Qcdiv. apply Qcmult_0_l. Qed.

Lemma Qcdiv_self (t : Qc) : (0 < t)%Qc → (t / t = 1)%Qc.
Proof.
  intros Ht. unfold Qcdiv. apply Qcmult_inv_r.
  intros ->. by apply (Qclt_not_eq 0 0).
Qed.

Lemma Qcdiv_bounds (c t : Qc) :
  (0 ≤ c)%Qc → (c ≤ t)%Qc → (0 < t)%Qc → (0 ≤ c / t)%Qc ∧ (c / t ≤ 1)%Qc.
Proof.
  intros Hc Hct Ht. pose proof (Qcinv_pos t Ht) as Hinv. split.
  - unfold Qcdiv. apply Qcmult_nonneg_nonneg; [done|]. by apply Qclt_le_weak.
  - rewrite <-(Qcdiv_self t Ht). unfold Qcdiv.
    apply Qcmult_le_mono_nonneg_r; [|done]. by apply Qclt_le_weak.
Qed.

Lemma foldl_Qcplus (a : Qc) (l : list Qc) :
  foldl Qcplus a l = (a + sum_Qc l)%Qc.
Proof.
  unfold sum_Qc. revert a. induction l as [|x l IH]; intros a; simpl.
  - by rewrite Qcplus_0_r.
  - rewrite (IH (a + x)%Qc), (IH (0 + x)%Qc), Qcplus_0_l.
    by rewrite Qcplus_assoc.
Qed.

Lemma sum_Qc_nil : sum_Qc [] = 0%Qc.
Proof. done. Qed.

Lemma sum_Qc_cons (x : Qc) (l : list Qc) : sum_Qc (x :: l) = (x + sum_Qc l)%Qc.
Proof.
  unfold sum_Qc at 1. simpl. by rewrite foldl_Qcplus, Qcplus_0_l.
Qed.

(** ** compute_time_to_hire in closed form *)

(** The number of records with a hire date. *)
Lemma hired_rows_length df :
  length (hired_rows df) = length (filter (λ r, successful_date r ≠ None) df).
Proof.
  unfold hired_rows. induction df as [|r df IH]; [done|].
  rewrite filter_cons. cbn [omap list_omap].
  destruct (successful_date r) as [h|]; cbn.
  - destruct (decide (Some h ≠ None)) as [_|Hn]; [|by destruct Hn].
    cbn. by f_equal.
  - destruct (decide (None ≠ @None Timestamp)) as [Hn|_]; [by destruct Hn|done].
Qed.

Lemma elem_of_hired_rows df row :
  row ∈ hired_rows df ↔
  ∃ r h, r ∈ df ∧ successful_date r = Some h
         ∧ row = {| application_month := to_period_M (application_date r);
                    hire_month := to_period_M h |}.
Proof.
  unfold hired_rows. rewrite list_elem_of_omap. split.
  - intros (r & Hr & Hrow). destruct (successful_date r) as [h|] eqn:Hh;
      simplify_eq/=. eauto.
  - intros (r & h & Hr & Hh & ->). exists r. split; [done|].
    by rewrite Hh.
Qed.

Lemma compute_time_to_hire_closed df n :
  compute_time_to_hire df n
  = (λ k, if decide (0 < length (hired_rows df))%nat
          then (Qc_of_nat (lag_count (hired_rows df) k)
                / Qc_of_nat (length (hired_rows df)))%Qc
          else 0%Qc) <$> seq 0 n.
Proof.
  unfold compute_time_to_hire.
  by rewrite bracket_counts_closed, <-list_fmap_compose.
Qed.

Lemma compute_time_to_hire_length df n : length (compute_time_to_hire df n) = n.
Proof.
  unfold compute_time_to_hire. by rewrite length_fmap, bracket_counts_length.
Qed.

Lemma compute_time_to_hire_no_hires df n :
  length (hired_rows df) = 0%nat →
  compute_time_to_hire df n = replicate n 0%Qc.
Proof.
  intros Hz. rewrite compute_time_to_hire_closed, Hz.
  destruct (decide (0 < 0)%nat); [lia|].
  generalize 0%nat at 1. induction n as [|n IH]; intros a; simpl; [done|].
  by rewrite IH.
Qed.

Lemma lag_count_le df k : (lag_count df k ≤ length df)%nat.
Proof. apply length_filter. Qed.


Lemma length_filter_none {A} (P : A → Prop) `{∀ x, Decision (P x)} (l : list A) :
  (∀ x, x ∈ l → ¬ P x) → length (filter P l) = 0%nat.
Proof.
  induction l as [|x l IH]; intros Hn; [done|].
  rewrite filter_cons. destruct (decide (P x)) as [HP|_].
  - destruct (Hn x); [left|done].
  - apply IH. intros y Hy. apply Hn. by right.
Qed.

(** The window test of the specification, on the records that were hired. *)
Lemma spec_window_count df k :
  length (filter
            (λ r, hire_in_window (to_period_M (application_date r)) k r)
            (filter (λ r, successful_date r ≠ None) df))
  = lag_count (hired_rows df) k.
Proof.
  rewrite length_filter_filter. unfold lag_count, hired_rows.
  induction df as [|r df IH]; [done|].
  rewrite filter_cons. cbn [omap list_omap].
  case_decide as Hdec.
  - destruct Hdec as [Hsome Hwin]. unfold hire_in_window in Hwin.
    destruct (successful_date r) as [h|]; [|done]. cbn.
    case_decide; [|lia]. cbn. by f_equal.
  - unfold hire_in_window in Hdec.
    destruct (successful_date r) as [h|]; cbn; [|done].
    case_decide; [|done].
    destruct Hdec. split; [done|lia].
Qed.

Lemma spec_accumulated df k :
  let remaining := filter (λ r, successful_date r ≠ None) df in
  sum_list_with
    (λ c, length (filter (hire_in_window c k)
                    (filter (λ r, to_period_M (application_date r) = c)
                       remaining)))
    (remove_dups ((λ r, to_period_M (application_date r)) <$> remaining))
  = lag_count (hired_rows df) k.
Proof.
  intros remaining. rewrite <-spec_window_count.
  rewrite <-(count_by_key (λ r, to_period_M (application_date r)) _
               (remove_dups ((λ r, to_period_M (application_date r))
                               <$> remaining)) remaining).
  - apply sum_list_with_ext. intros c _.
    rewrite length_filter_filter. apply length_filter_ext.
    intros r _. split; intros [<- Hw]; done.
  - apply NoDup_remove_dups.
  - intros r Hr. apply elem_of_remove_dups.
    by apply (list_elem_of_fmap_2 (λ r, to_period_M (application_date r))).
Qed.

(** ** Checks on concrete inputs *)

Lemma period_month_to_period_M (t : Timestamp) :
  period_month (to_period_M t) = month t.
Proof.
  unfold period_month, to_period_M.
  replace (((year t - 1970) * 12 + (month_number (month t) - 1)) `mod` 12)
    with (month_number (month t) - 1).
  - by destruct (month t).
  - rewrite Z.add_comm, Z_mod_plus_full.
    symmetry. apply Z.mod_small. destruct (month t); cbn; lia.
Qed.

Lemma Qc_list_canon (l l' : list Qc) : this <$> l = this <$> l' → l = l'.
Proof.
  revert l'. induction l as [|x l IH]; intros [|y l']; try done.
  intros [= Hxy Hl]. f_equal; [|by apply IH].
  apply Qc_is_canon. by rewrite Hxy.
Qed.

Example bracket_counts_mixed :
  bracket_counts (hired_rows scenario_mixed) 3 = [1; 0; 1]%nat.
Proof. reflexivity. Qed.

Example compute_time_to_hire_mixed :
  compute_time_to_hire scenario_mixed 3
  = [Q2Qc (1 # 4); 0%Qc; Q2Qc (1 # 4)].
Proof. apply Qc_list_canon. vm_compute. reflexivity. Qed.

Example groupby_mixed :
  groupby application_month (hired_rows scenario_mixed)
  = [ (ym 2023 Dec, [ {| application_month := ym 2023 Dec;
                         hire_month := ym 2025 Feb |} ]);
      (ym 2024 Jan, [ {| application_month := ym 2024 Jan;
                         hire_month := ym 2024 Jan |};
                      {| application_month := ym 2024 Jan;
                         hire_month := ym 2024 Mar |} ]);
      (ym 2024 Mar, [ {| application_month := ym 2024 Mar;
                         hire_month := ym 2024 Feb |} ]) ].
Proof. reflexivity. Qed.

Example round2_ties :
  this (round2 (Q2Qc (12345 # 1000))) = (617 # 50)%Q
  ∧ this (round2 (Q2Qc (12355 # 1000))) = (309 # 25)%Q
  ∧ this (round2 (Q2Qc (12344 # 1000))) = (617 # 50)%Q.
Proof. by vm_compute. Qed.

(** ** The claims on the bracket engine *)

(** C1 (as the code has it).  Ten applications dated in January, four of
    them hired in the February that follows and six without hire date:
    with three brackets the result is [0; 1; 0] and its sum is 1.  The
    denominator is the number of hired records, four, not the number of
    applications. *)
Theorem C1_scenario_A_brackets (df : list Application) :
  length df = 10%nat →
  (∀ r, r ∈ df → month (application_date r) = Jan) →
  length (filter (λ r, successful_date r ≠ None) df) = 4%nat →
  (∀ r h, r ∈ df → successful_date r = Some h →
          year h = year (application_date r) ∧ month h = Feb) →
  compute_time_to_hire df 3 = [0%Qc; 1%Qc; 0%Qc]
  ∧ sum_Qc (compute_time_to_hire df 3) = 1%Qc.
Proof.
  intros _ HJan H4 HFeb. rewrite <-hired_rows_length in H4.
  assert (∀ row, row ∈ hired_rows df →
                 hire_month row - application_month row = 1) as Hlag.
  { intros row (r & h & Hr & Hh & ->)%elem_of_hired_rows. cbn.
    destruct (HFeb r h Hr Hh) as [Hy Hm]. unfold to_period_M.
    rewrite Hy, Hm, (HJan r Hr). cbn. lia. }
  assert (lag_count (hired_rows df) 1 = 4%nat) as H1.
  { rewrite <-H4. apply length_filter_all, Forall_forall.
    intros row Hrow. by rewrite (Hlag row Hrow). }
  assert (∀ k, k ≠ 1%nat → lag_count (hired_rows df) k = 0%nat) as H0.
  { intros k Hk. apply length_filter_none.
    intros row Hrow. rewrite (Hlag row Hrow). lia. }
  assert (compute_time_to_hire df 3 = [0%Qc; 1%Qc; 0%Qc]) as ->.
  { rewrite compute_time_to_hire_closed, H4. cbn [seq fmap list_fmap].
    rewrite H1, !H0 by lia.
    repeat f_equal; by apply Qc_is_canon. }
  split; [done|]. by apply Qc_is_canon.
Qed.

Lemma C1_scenario_A_brackets_witness :
  compute_time_to_hire scenario_A 3 = [0%Qc; 1%Qc; 0%Qc]
  ∧ sum_Qc (compute_time_to_hire scenario_A 3) = 1%Qc.
Proof.
  apply (C1_scenario_A_brackets scenario_A).
  - reflexivity.
  - intros r Hr. unfold scenario_A in Hr.
    apply elem_of_app in Hr as [Hr|Hr]; apply elem_of_replicate in Hr as [-> _];
      reflexivity.
  - reflexivity.
  - intros r h Hr Hh. unfold scenario_A in Hr.
    apply elem_of_app in Hr as [Hr|Hr]; apply elem_of_replicate in Hr as [-> _];
      cbn in Hh; [|discriminate].
    injection Hh as <-. split; reflexivity.
Defined.

(** C1 as the specification words it fails: on scenario A the result is
    not [0; 0.4; 0]. *)
Lemma C1_counterexample :
  ¬ (compute_time_to_hire scenario_A 3 = [0%Qc; Q2Qc (4 # 10); 0%Qc]
     ∧ sum_Qc (compute_time_to_hire scenario_A 3) = Q2Qc (4 # 10)).
Proof.
  intros [H _]. apply (f_equal (fmap this)) in H.
  vm_compute in H. discriminate H.
Qed.

(** C2.  [compute_time_to_hire] computes what the algorithm of the
    specification describes: drop the records without hire date, group by
    application month, count per cohort and offset the hires in the
    half-open month window, accumulate per bracket over the cohorts, and
    divide by the number of hired records (all zero when there is none). *)
Theorem C2_compute_time_to_hire_refines_spec
    (records : list Application) (horizon : nat) :
  compute_time_to_hire records horizon = computeBrackets_spec records horizon.
Proof.
  rewrite compute_time_to_hire_closed. unfold computeBrackets_spec.
  apply list_fmap_ext. intros _ k _.
  rewrite <-hired_rows_length, spec_accumulated.
  destruct (decide (0 < length (hired_rows records))%nat),
           (decide (length (hired_rows records) = 0%nat)); try done; lia.
Qed.

(** C3.  The result has as many entries as brackets were asked for; every
    entry is between 0 and 1 when at least one record has a hire date; all
    entries are zero when no record has one; on the empty table the result
    is the zero vector of the requested length (the function is total:
    nothing is raised). *)
Theorem C3_brackets_shape (df : list Application) (num_months : nat) :
  length (compute_time_to_hire df num_months) = num_months
  ∧ ((0 < length (filter (λ r, successful_date r ≠ None) df))%nat →
     Forall (λ e, (0 ≤ e)%Qc ∧ (e ≤ 1)%Qc) (compute_time_to_hire df num_months))
  ∧ (length (filter (λ r, successful_date r ≠ None) df) = 0%nat →
     compute_time_to_hire df num_months = replicate num_months 0%Qc)
  ∧ compute_time_to_hire [] num_months = replicate num_months 0%Qc.
Proof.
  rewrite <-hired_rows_length. split_and!.
  - apply compute_time_to_hire_length.
  - intros Hpos. rewrite compute_time_to_hire_closed.
    apply Forall_fmap, Forall_forall. intros k _. cbn.
    destruct (decide (0 < length (hired_rows df))%nat); [|lia].
    apply Qcdiv_bounds.
    + rewrite <-Qc_of_nat_0. apply Qc_of_nat_le. lia.
    + apply Qc_of_nat_le, lag_count_le.
    + by apply Qc_of_nat_pos.
  - apply compute_time_to_hire_no_hires.
  - by apply compute_time_to_hire_no_hires.
Qed.

Lemma C3_brackets_shape_witness :
  Forall (λ e, (0 ≤ e)%Qc ∧ (e ≤ 1)%Qc) (compute_time_to_hire scenario_A 3)
  ∧ compute_time_to_hire [application 2024 Jan 20 None] 5 = replicate 5 0%Qc.
Proof.
  split.
  - apply (proj1 (proj2 (C3_brackets_shape scenario_A 3))). vm_compute. lia.
  - apply (proj1 (proj2 (proj2
             (C3_brackets_shape [application 2024 Jan 20 None] 5)))).
    reflexivity.
Defined.







(** The claim also fails on a table without hires: no hire lies outside
    the window, yet the entries are all 0 and sum to 0, not to 1. *)
Example brackets_sum_without_hires :
  (∀ r h, r ∈ [application 2024 Jan 20 None] → successful_date r = Some h →
          0 ≤ to_period_M h - to_period_M (application_date r) < Z.of_nat 3)
  ∧ sum_Qc (compute_time_to_hire [application 2024 Jan 20 None] 3) = 0%Qc
  ∧ PrimFloat.eqb
      (sum_binary64
         (compute_time_to_hire_binary64 [application 2024 Jan 20 None] 3))
      PrimFloat.one = false.
Proof.
  split_and!.
  - intros r h ->%list_elem_of_singleton. discriminate.
  - by apply Qc_is_canon.
  - reflexivity.
Qed.

Example brackets_ninths :
  bracket_counts (hired_rows scenario_ninths) 5 = [1; 5; 1; 1; 1]%nat
  ∧ PrimFloat.ltb PrimFloat.one
      (sum_binary64 (compute_time_to_hire_binary64 scenario_ninths 5)) = true
  ∧ sum_Qc (compute_time_to_hire scenario_ninths 5) = 1%Qc.
Proof.
  split_and!; [reflexivity|reflexivity|]. by apply Qc_is_canon.
Qed.

(** ** month_wise_brackets *)

Lemma foldl_insert_lookup {V} (f : string → V) (names : list string)
    (d : gmap string V) (m : string) :
  foldl (λ (d : gmap string V) k, <[k := f k]> d) d names !! m
  = if decide (m ∈ names) then Some (f m) else d !! m.
Proof.
  revert d. induction names as [|k names IH]; intros d; cbn [foldl].
  - destruct (decide (m ∈ [])) as [Hm|_]; [|done].
    by apply not_elem_of_nil in Hm.
  - rewrite IH.
    destruct (decide (m ∈ names)) as [Hm|Hm].
    + destruct (decide (m ∈ k :: names)) as [_|Hn]; [done|].
      destruct Hn. by right.
    + destruct (decide (m = k)) as [->|Hne].
      * rewrite lookup_insert_eq.
        destruct (decide (k ∈ k :: names)) as [_|Hn]; [done|].
        destruct Hn. left.
      * rewrite lookup_insert_ne by done.
        destruct (decide (m ∈ k :: names)) as [Hin|_]; [|done].
        apply elem_of_cons in Hin as [?|?]; done.
Qed.

Lemma month_wise_brackets_lookup filtered_df m :
  month_wise_brackets filtered_df !! m
  = if decide (m ∈ month_lookup)
    then Some (compute_time_to_hire
                 (filter (λ r, month_name r = m) filtered_df) 12)
    else None.
Proof.
  unfold month_wise_brackets.
  rewrite (foldl_insert_lookup
             (λ month,
                let month_data :=
                  filter (λ r, month_name r = month) filtered_df in
                if decide (month_data ≠ [])
                then compute_time_to_hire month_data 12
                else replicate 12 0%Qc)).
  destruct (decide (m ∈ month_lookup)); [|done].
  cbn zeta. destruct (decide (filter (λ r, month_name r = m) filtered_df ≠ []))
    as [_|Hempty]; [done|].
  apply dec_stable in Hempty. rewrite Hempty.
  by rewrite compute_time_to_hire_no_hires.
Qed.

(** C5.  The table has exactly the twelve keys Jan .. Dec.  Under each
    name it holds the brackets of the records applied for in a month of
    that name, computed with twelve brackets; a name without records is
    mapped to twelve zeros. *)
Theorem C5_month_wise_brackets (filtered_df : list Application) :
  dom (month_wise_brackets filtered_df) = list_to_set month_lookup
  ∧ size (month_wise_brackets filtered_df) = 12%nat
  ∧ ∀ m, m ∈ month_lookup →
      month_wise_brackets filtered_df !! m
      = Some (compute_time_to_hire
                (filter (λ r, month_name r = m) filtered_df) 12)
      ∧ (filter (λ r, month_name r = m) filtered_df = [] →
         month_wise_brackets filtered_df !! m = Some (replicate 12 0%Qc)).
Proof.
  assert (dom (month_wise_brackets filtered_df)
          = (list_to_set month_lookup : gset string)) as Hdom.
  { apply set_eq. intros m.
    rewrite elem_of_dom, elem_of_list_to_set, month_wise_brackets_lookup.
    destruct (decide (m ∈ month_lookup)) as [Hm|Hm].
    - split; [done|]. intros _. eauto.
    - split; [by intros [? ?]|done]. }
  split_and!; [done| |].
  - rewrite <-size_dom, Hdom. reflexivity.
  - intros m Hm. rewrite month_wise_brackets_lookup.
    destruct (decide (m ∈ month_lookup)); [|done].
    split; [done|]. intros ->.
    by rewrite compute_time_to_hire_no_hires.
Qed.

Lemma C5_month_wise_brackets_witness :
  month_wise_brackets scenario_A !! "Jan"
  = Some (compute_time_to_hire
            (filter (λ r, month_name r = "Jan") scenario_A) 12)
  ∧ month_wise_brackets scenario_A !! "Feb" = Some (replicate 12 0%Qc).
Proof.
  split.
  - apply (proj2 (proj2 (C5_month_wise_brackets scenario_A)) "Jan").
    unfold month_lookup. set_solver.
  - apply (proj2 (proj2 (C5_month_wise_brackets scenario_A)) "Feb").
    + unfold month_lookup. set_solver.
    + reflexivity.
Defined.

(** ** The cost calculator *)

Lemma weight_at_is_Some K name i :
  kernel_ok K → (i < 12)%nat → is_Some (weight_at K name i).
Proof.
  intros HK Hi. unfold weight_at. apply lookup_lt_is_Some.
  destruct (K !! name) as [l|] eqn:Hl; cbn.
  - specialize (HK name l Hl). lia.
  - lia.
Qed.

Lemma kernel_ok_month_wise_brackets filtered_df :
  kernel_ok (month_wise_brackets filtered_df).
Proof.
  intros name l. rewrite month_wise_brackets_lookup.
  destruct (decide (name ∈ month_lookup)); [|done].
  intros [= <-]. by rewrite compute_time_to_hire_length.
Qed.

Section look_back.
Context (spend_df : list SpendRow) (K : gmap string (list Qc)) (h : Z).

Lemma look_back_raised (l : list nat) :
  foldl (look_back_step spend_df K h) None l = None.
Proof. induction l as [|i l IH]; [done|]. exact IH. Qed.

Lemma look_back_fold (l : list nat) (acc ws : Qc) :
  foldl (look_back_step spend_df K h) (Some acc) l = Some ws →
  ws = foldl Qcplus acc (weighted_term spend_df K h <$> l).
Proof.
  revert acc. induction l as [|i l IH]; intros acc; cbn [foldl fmap list_fmap].
  - by intros [= <-].
  - destruct (weight_at K (month_abbr (period_month (h - Z.of_nat i))) i)
      as [w|] eqn:Hw.
    + assert (look_back_step spend_df K h (Some acc) i
              = Some (acc + weighted_term spend_df K h i)%Qc) as ->.
      { unfold look_back_step, weighted_term, kernel_weight. cbn.
        by rewrite Hw. }
      apply IH.
    + assert (look_back_step spend_df K h (Some acc) i = None) as ->.
      { unfold look_back_step. cbn. by rewrite Hw. }
      rewrite look_back_raised. discriminate.
Qed.

Lemma look_back_fold_total (l : list nat) (acc : Qc) :
  Forall (λ i, is_Some (weight_at K
                 (month_abbr (period_month (h - Z.of_nat i))) i)) l →
  is_Some (foldl (look_back_step spend_df K h) (Some acc) l).
Proof.
  revert acc. induction l as [|i l IH]; intros acc Hall; cbn [foldl].
  - by eexists.
  - apply Forall_cons in Hall as [[w Hw] Hall].
    assert (look_back_step spend_df K h (Some acc) i
            = Some (acc + spend_in spend_df (h - Z.of_nat i) * w)%Qc) as ->.
    { unfold look_back_step. cbn. by rewrite Hw. }
    by apply IH.
Qed.

Lemma weighted_spend_loop_Some ws :
  weighted_spend_loop spend_df K h = Some ws →
  ws = weighted_spend_formula spend_df K h.
Proof. apply look_back_fold. Qed.

Lemma weighted_spend_loop_total :
  kernel_ok K →
  weighted_spend_loop spend_df K h = Some (weighted_spend_formula spend_df K h).
Proof.
  intros HK.
  destruct (look_back_fold_total (seq 0 12) 0%Qc) as [ws Hws].
  - apply Forall_forall. intros i Hi%elem_of_seq.
    apply weight_at_is_Some; [done|lia].
  - unfold weighted_spend_loop. rewrite Hws. f_equal.
    by apply weighted_spend_loop_Some.
Qed.
End look_back.

Lemma cac_row_Some hire_df spend_df K h row :
  cac_row hire_df spend_df K h = Some row →
  row = expected_row hire_df spend_df K h.
Proof.
  unfold cac_row.
  destruct (weighted_spend_loop spend_df K h) as [ws|] eqn:Hws; [|done].
  apply weighted_spend_loop_Some in Hws as ->. cbn. intros [= <-].
  unfold expected_row, cac_of. by destruct (decide (0 < hires_in hire_df h)).
Qed.

Lemma cac_row_total hire_df spend_df K h :
  kernel_ok K →
  cac_row hire_df spend_df K h = Some (expected_row hire_df spend_df K h).
Proof.
  intros HK. unfold cac_row. rewrite weighted_spend_loop_total by done. cbn.
  unfold expected_row, cac_of. by destruct (decide (0 < hires_in hire_df h)).
Qed.

Lemma cac_rows_Some hire_df spend_df K rows :
  cac_rows hire_df spend_df K = Some rows →
  rows = expected_row hire_df spend_df K <$> hire_months hire_df.
Proof.
  unfold cac_rows. intros H%mapM_Some_1.
  induction H as [|h row hs rows Hrow _ IH]; [done|].
  apply cac_row_Some in Hrow as ->. cbn. by f_equal.
Qed.

Lemma cac_rows_total hire_df spend_df K :
  kernel_ok K →
  cac_rows hire_df spend_df K
  = Some (expected_row hire_df spend_df K <$> hire_months hire_df).
Proof.
  intros HK. unfold cac_rows. apply mapM_Some_2.
  induction (hire_months hire_df) as [|h hs IH]; cbn; constructor; [|done].
  by apply cac_row_total.
Qed.

Lemma cac_rows_months hire_df spend_df K rows :
  cac_rows hire_df spend_df K = Some rows →
  Hire_Month <$> rows = hire_months hire_df.
Proof.
  intros ->%cac_rows_Some. rewrite <-list_fmap_compose.
  induction (hire_months hire_df) as [|h hs IH]; [done|].
  cbn. by f_equal.
Qed.

(** *** Hire months *)

Lemma elem_of_hire_months (hire_df : list HireAgg.row) (m : Z) :
  m ∈ hire_months hire_df ↔
  ∃ r, r ∈ hire_df ∧ HireAgg.hire_month r = Some m.
Proof.
  unfold hire_months. by rewrite elem_of_sorted_unique, list_elem_of_omap.
Qed.

Lemma NoDup_hire_months hire_df : NoDup (hire_months hire_df).
Proof. apply NoDup_sorted_unique. Qed.

Lemma StronglySorted_le_lt (l : list Z) :
  StronglySorted Z.le l → NoDup l → StronglySorted Z.lt l.
Proof.
  induction 1 as [|x l Hl IH Hx]; intros Hnd; constructor.
  - apply IH. by apply NoDup_cons in Hnd as [_ ?].
  - apply NoDup_cons in Hnd as [Hnotin _].
    rewrite Forall_forall in Hx. apply Forall_forall. intros y Hy.
    specialize (Hx y Hy). assert (x ≠ y) by (by intros ->). lia.
Qed.

Lemma hire_months_ascending hire_df : StronglySorted Z.lt (hire_months hire_df).
Proof.
  apply StronglySorted_le_lt; [|apply NoDup_hire_months].
  apply Sorted_StronglySorted; [apply _|]. apply sorted_Sorted.
Qed.

Lemma hire_months_Permutation hire_df hire_df' :
  hire_df ≡ₚ hire_df' → hire_months hire_df = hire_months hire_df'.
Proof.
  intros Hp. unfold hire_months.
  apply (Sorted_unique Z.le); [apply sorted_Sorted ..|].
  rewrite !sorted_Permutation.
  apply NoDup_Permutation; [apply NoDup_unique ..|].
  intros m. rewrite !elem_of_unique. by rewrite Hp.
Qed.

(** *** Column sums *)

Lemma foldl_Zadd (a : Z) (l : list Z) : foldl Z.add a l = a + sum_Z l.
Proof.
  unfold sum_Z. revert a. induction l as [|x l IH]; intros a; simpl; [lia|].
  rewrite (IH (a + x)), (IH (0 + x)). lia.
Qed.

Lemma sum_Z_cons (x : Z) (l : list Z) : sum_Z (x :: l) = x + sum_Z l.
Proof. unfold sum_Z at 1. simpl. by rewrite foldl_Zadd. Qed.

Lemma sum_Z_Permutation (l l' : list Z) : l ≡ₚ l' → sum_Z l = sum_Z l'.
Proof.
  induction 1 as [|x l l' _ IH|x y l|l l' l'' _ IH1 _ IH2];
    rewrite ?sum_Z_cons; [done|lia|lia|congruence].
Qed.

Lemma sum_Qc_Permutation (l l' : list Qc) : l ≡ₚ l' → sum_Qc l = sum_Qc l'.
Proof.
  induction 1 as [|x l l' _ IH|x y l|l l' l'' _ IH1 _ IH2];
    rewrite ?sum_Qc_cons; [done|by rewrite IH| |congruence].
  by rewrite !Qcplus_assoc, (Qcplus_comm x y).
Qed.

Lemma wrap_int64_add_l (a b : Z) :
  wrap_int64 (wrap_int64 a + b) = wrap_int64 (a + b).
Proof.
  unfold wrap_int64. f_equal.
  replace ((a + 2 ^ 63) `mod` 2 ^ 64 - 2 ^ 63 + b + 2 ^ 63)
    with ((a + 2 ^ 63) `mod` 2 ^ 64 + b) by lia.
  rewrite Zplus_mod_idemp_l. f_equal. lia.
Qed.

Lemma wrap_int64_small (z : Z) :
  - 2 ^ 63 ≤ z < 2 ^ 63 → wrap_int64 z = z.
Proof. intros Hz. unfold wrap_int64. rewrite Z.mod_small; lia. Qed.

Lemma wrap_int64_range (z : Z) : - 2 ^ 63 ≤ wrap_int64 z < 2 ^ 63.
Proof.
  unfold wrap_int64.
  pose proof (Z.mod_pos_bound (z + 2 ^ 63) (2 ^ 64)). lia.
Qed.

(** Wrapping at every step is wrapping the exact sum once. *)
Lemma sum_int64_exact (l : list Z) : sum_int64 l = wrap_int64 (sum_Z l).
Proof.
  unfold sum_int64.
  assert (∀ a, foldl (λ acc x, wrap_int64 (acc + x)) (wrap_int64 a) l
               = wrap_int64 (a + sum_Z l)) as Hgen.
  { induction l as [|x l IH]; intros a; cbn [foldl].
    - unfold sum_Z. cbn. f_equal. lia.
    - rewrite wrap_int64_add_l, IH, sum_Z_cons. f_equal. lia. }
  rewrite <-(wrap_int64_small 0) at 1 by lia. by rewrite Hgen.
Qed.

Lemma hires_in_exact hire_df m :
  hires_in hire_df m = wrap_int64 (exact_hires hire_df m).
Proof. apply sum_int64_exact. Qed.

Lemma hires_in_Permutation hire_df hire_df' m :
  hire_df ≡ₚ hire_df' → hires_in hire_df m = hires_in hire_df' m.
Proof.
  intros Hp. rewrite !hires_in_exact. f_equal. unfold exact_hires.
  apply sum_Z_Permutation. by rewrite Hp.
Qed.

Lemma spend_in_Permutation spend_df spend_df' m :
  spend_df ≡ₚ spend_df' → spend_in spend_df m = spend_in spend_df' m.
Proof. intros Hp. unfold spend_in. apply sum_Qc_Permutation. by rewrite Hp. Qed.

(** A month without spend row counts as zero spend. *)
Lemma spend_in_absent spend_df m :
  (∀ r, r ∈ spend_df → spend_month r ≠ m) → spend_in spend_df m = 0%Qc.
Proof.
  intros Habs. unfold spend_in.
  assert (filter (λ r, spend_month r = m) spend_df = []) as ->; [|done].
  apply length_zero_iff_nil, length_filter_none. done.
Qed.

Lemma sum_Z_lower_bound (l : list Z) :
  (∀ x, x ∈ l → 1 ≤ x) → Z.of_nat (length l) ≤ sum_Z l.
Proof.
  induction l as [|x l IH]; intros Hl; [done|].
  rewrite sum_Z_cons. cbn [length].
  assert (1 ≤ x) by (apply Hl; left).
  assert (Z.of_nat (length l) ≤ sum_Z l).
  { apply IH. intros y Hy. apply Hl. by right. }
  lia.
Qed.

Lemma exact_hires_positive hire_df m :
  (∀ r, r ∈ hire_df → 1 ≤ HireAgg.hires r) →
  m ∈ hire_months hire_df → 0 < exact_hires hire_df m.
Proof.
  intros Hone (r & Hr & Hm)%elem_of_hire_months. unfold exact_hires.
  set (sel := filter (λ r, HireAgg.hire_month r = Some m) hire_df).
  assert (r ∈ sel) as Hsel by (by apply list_elem_of_filter).
  assert (Z.of_nat (length (HireAgg.hires <$> sel))
          ≤ sum_Z (HireAgg.hires <$> sel)) as Hsum.
  { apply sum_Z_lower_bound.
    intros x (r' & -> & Hr')%list_elem_of_fmap.
    apply Hone. by apply list_elem_of_filter in Hr' as [_ ?]. }
  rewrite length_fmap in Hsum.
  destruct sel; [by apply not_elem_of_nil in Hsel|]. cbn [length] in Hsum. lia.
Qed.

Lemma kernel_weight_lookup K name l i :
  K !! name = Some l → (i < length l)%nat →
  l !! i = Some (kernel_weight K name i).
Proof.
  intros HK Hi. unfold kernel_weight, weight_at. rewrite HK. cbn.
  destruct (lookup_lt_is_Some_2 l i Hi) as [w ->]. done.
Qed.

Lemma kernel_ok_scenario_C : kernel_ok scenario_C_kernel.
Proof.
  intros name l. unfold scenario_C_kernel.
  rewrite !lookup_insert_Some, lookup_empty.
  intros [[_ <-]|[_ [[_ <-]|[_ [[_ <-]|[_ ?]]]]]]; [cbn; lia ..|done].
Qed.

(** ** The claims on the cost calculator *)

(** C6.  For a hire month of the hire aggregates, the look-back loop ends
    with [weighted_spend] equal to the sum over [i = 0 .. 11] of the spend
    of the month [i] months earlier times the kernel entry of offset [i]
    under that month's name; a month without spend row contributes zero
    spend; [cac] is [weighted_spend / hires] when [hires > 0]; the row
    appended for the month reports both, rounded to two decimals.  In
    scenario C (hire month 2024-03, spend 100/200/300 for 2024-01/02/03,
    weights 0.1/0.3/0.5, 10 hires) the weighted spend is 220 and the CAC
    is 22. *)
Theorem C6_weighted_spend_and_cac
    (hire_df : list HireAgg.row) (spend_df : list SpendRow)
    (K : gmap string (list Qc)) (h : Z) :
  kernel_ok K → h ∈ hire_months hire_df →
  weighted_spend_loop spend_df K h
  = Some (weighted_spend_formula spend_df K h)
  ∧ (∀ name l i, K !! name = Some l → (i < 12)%nat →
                 l !! i = Some (kernel_weight K name i))
  ∧ (∀ m, (∀ r, r ∈ spend_df → spend_month r ≠ m) →
          spend_in spend_df m = 0%Qc)
  ∧ (0 < hires_in hire_df h →
     cac_of (weighted_spend_formula spend_df K h) (hires_in hire_df h)
     = Some (weighted_spend_formula spend_df K h
             / Qc_of_Z (hires_in hire_df h))%Qc)
  ∧ (∃ rows, cac_rows hire_df spend_df K = Some rows
             ∧ expected_row hire_df spend_df K h ∈ rows)
  ∧ weighted_spend_loop scenario_C_spend scenario_C_kernel (ym 2024 Mar)
    = Some (Qc_of_Z 220)
  ∧ cac_of (Qc_of_Z 220) 10 = Some (Qc_of_Z 22)
  ∧ ∃ row, cac_rows scenario_C_hires scenario_C_spend scenario_C_kernel
           = Some [row]
           ∧ Hire_Month row = ym 2024 Mar ∧ Total_Hires row = 10
           ∧ Weighted_Spend row = Qc_of_Z 220
           ∧ CAC row = CacNumber (Qc_of_Z 22).
Proof.
  intros HK Hh. split_and!.
  - by apply weighted_spend_loop_total.
  - intros name l i Hl Hi. apply kernel_weight_lookup; [done|].
    specialize (HK name l Hl). lia.
  - apply spend_in_absent.
  - intros Hpos. unfold cac_of. by destruct (decide (0 < hires_in hire_df h)).
  - eexists. split; [by apply cac_rows_total|].
    by apply list_elem_of_fmap_2.
  - vm_compute. f_equal. by apply Qc_is_canon.
  - vm_compute. f_equal. by apply Qc_is_canon.
  - eexists. split; [vm_compute; reflexivity|].
    cbn [Hire_Month Total_Hires Weighted_Spend CAC]. split_and!.
    + reflexivity.
    + reflexivity.
    + by apply Qc_is_canon.
    + f_equal. by apply Qc_is_canon.
Qed.

Lemma C6_weighted_spend_and_cac_witness :
  weighted_spend_loop scenario_C_spend scenario_C_kernel (ym 2024 Mar)
  = Some (weighted_spend_formula scenario_C_spend scenario_C_kernel
            (ym 2024 Mar))
  ∧ cac_of (weighted_spend_formula scenario_C_spend scenario_C_kernel
              (ym 2024 Mar))
           (hires_in scenario_C_hires (ym 2024 Mar))
    = Some (weighted_spend_formula scenario_C_spend scenario_C_kernel
              (ym 2024 Mar)
            / Qc_of_Z (hires_in scenario_C_hires (ym 2024 Mar)))%Qc.
Proof.
  assert (ym 2024 Mar ∈ hire_months scenario_C_hires) as Hh.
  { vm_compute. left. }
  pose proof (C6_weighted_spend_and_cac scenario_C_hires scenario_C_spend
                scenario_C_kernel (ym 2024 Mar) kernel_ok_scenario_C Hh)
    as (Hloop & _ & _ & Hcac & _).
  split; [exact Hloop|]. apply Hcac. reflexivity.
Defined.




(** C8.  Reordering the rows of the hire aggregates or of the spend table
    does not change the result, and the rows come out in strictly
    ascending order of hire month. *)
Theorem C8_order_independent
    (hire_df hire_df' : list HireAgg.row) (spend_df spend_df' : list SpendRow)
    (K : gmap string (list Qc)) :
  hire_df ≡ₚ hire_df' → spend_df ≡ₚ spend_df' →
  cac_rows hire_df spend_df K = cac_rows hire_df' spend_df' K
  ∧ (kernel_ok K → is_Some (cac_rows hire_df spend_df K))
  ∧ ∀ rows, cac_rows hire_df spend_df K = Some rows →
            StronglySorted Z.lt (Hire_Month <$> rows).
Proof.
  intros Hh Hs. split_and!.
  - unfold cac_rows. rewrite <-(hire_months_Permutation _ _ Hh).
    apply mapM_ext. intros m. unfold cac_row.
    rewrite (hires_in_Permutation _ _ m Hh).
    assert (weighted_spend_loop spend_df K m
            = weighted_spend_loop spend_df' K m) as ->; [|done].
    unfold weighted_spend_loop. generalize (Some 0%Qc) (seq 0 12).
    intros acc l. revert acc.
    induction l as [|i l IH]; intros acc; cbn [foldl]; [done|].
    rewrite IH. f_equal. unfold look_back_step.
    by rewrite (spend_in_Permutation _ _ _ Hs).
  - intros HK. rewrite cac_rows_total by done. by eexists.
  - intros rows ->%cac_rows_months. apply hire_months_ascending.
Qed.

Lemma C8_order_independent_witness :
  cac_rows
    [ {| HireAgg.hire_month := Some (ym 2024 Mar); HireAgg.hires := 10 |};
      {| HireAgg.hire_month := Some (ym 2024 Feb); HireAgg.hires := 4 |} ]
    scenario_C_spend scenario_C_kernel
  = cac_rows
      [ {| HireAgg.hire_month := Some (ym 2024 Feb); HireAgg.hires := 4 |};
        {| HireAgg.hire_month := Some (ym 2024 Mar); HireAgg.hires := 10 |} ]
      (reverse scenario_C_spend) scenario_C_kernel.
Proof.
  apply C8_order_independent.
  - apply perm_swap.
  - symmetry. apply reverse_Permutation.
Defined.

(** C9.  The result has exactly one row for each distinct non-null hire
    month of the hire aggregates and no other row: no month occurs twice,
    and a month that no hire row carries (it may occur in the spend table)
    has no row. *)
Theorem C9_one_row_per_hire_month
    (hire_df : list HireAgg.row) (spend_df : list SpendRow)
    (K : gmap string (list Qc)) :
  kernel_ok K →
  ∃ rows, cac_rows hire_df spend_df K = Some rows
    ∧ NoDup (Hire_Month <$> rows)
    ∧ (∀ m, m ∈ Hire_Month <$> rows ↔
            ∃ r, r ∈ hire_df ∧ HireAgg.hire_month r = Some m)
    ∧ (∀ m, (∀ r, r ∈ hire_df → HireAgg.hire_month r ≠ Some m) →
            ∀ row, row ∈ rows → Hire_Month row ≠ m).
Proof.
  intros HK.
  exists (expected_row hire_df spend_df K <$> hire_months hire_df).
  pose proof (cac_rows_total hire_df spend_df K HK) as Hrows.
  pose proof (cac_rows_months _ _ _ _ Hrows) as Hmonths.
  split_and!; [done| | |].
  - rewrite Hmonths. apply NoDup_hire_months.
  - intros m. rewrite Hmonths. apply elem_of_hire_months.
  - intros m Habs row Hrow Hm.
    assert (m ∈ hire_months hire_df) as Hin.
    { rewrite <-Hmonths, <-Hm. by apply list_elem_of_fmap_2. }
    apply elem_of_hire_months in Hin as (r & Hr & Hrm). by apply (Habs r).
Qed.

Lemma C9_one_row_per_hire_month_witness :
  ∃ rows, cac_rows scenario_C_hires scenario_C_spend scenario_C_kernel
          = Some rows
    ∧ NoDup (Hire_Month <$> rows)
    ∧ (∀ m, m ∈ Hire_Month <$> rows ↔
            ∃ r, r ∈ scenario_C_hires ∧ HireAgg.hire_month r = Some m)
    ∧ (∀ m, (∀ r, r ∈ scenario_C_hires → HireAgg.hire_month r ≠ Some m) →
            ∀ row, row ∈ rows → Hire_Month row ≠ m).
Proof.
  apply (C9_one_row_per_hire_month scenario_C_hires scenario_C_spend
           scenario_C_kernel).
  apply kernel_ok_scenario_C.
Defined.

(** C10 (as the code has it).  When every row of the hire aggregates
    counts at least one hire and the counts of every hire month add up to
    less than 2^63, every reported row has a strictly positive total of
    hires and a number in its CAC cell; ['N/A'] does not occur. *)
Theorem C10_positive_hires_numeric_cac
    (hire_df : list HireAgg.row) (spend_df : list SpendRow)
    (K : gmap string (list Qc)) :
  (∀ r, r ∈ hire_df → 1 ≤ HireAgg.hires r) →
  (∀ m, m ∈ hire_months hire_df → exact_hires hire_df m < 2 ^ 63) →
  (∀ rows, cac_rows hire_df spend_df K = Some rows →
     Forall (λ row, 0 < Total_Hires row ∧ CAC row ≠ CacNA
                    ∧ ∃ x, CAC row = CacNumber x) rows)
  ∧ (kernel_ok K →
     ∃ rows, cac_rows hire_df spend_df K = Some rows
       ∧ Forall (λ row, 0 < Total_Hires row ∧ CAC row ≠ CacNA
                        ∧ ∃ x, CAC row = CacNumber x) rows).
Proof.
  intros Hone Hfit.
  assert (∀ rows, cac_rows hire_df spend_df K = Some rows →
            Forall (λ row, 0 < Total_Hires row ∧ CAC row ≠ CacNA
                           ∧ ∃ x, CAC row = CacNumber x) rows) as Hrows.
  { intros rows ->%cac_rows_Some. apply Forall_forall.
    intros row (m & -> & Hm)%list_elem_of_fmap.
    pose proof (exact_hires_positive hire_df m Hone Hm) as Hpos.
    specialize (Hfit m Hm).
    unfold expected_row. cbn.
    rewrite hires_in_exact, wrap_int64_small by lia.
    destruct (decide (0 < exact_hires hire_df m)); [|done].
    split_and!; [done|done|by eexists]. }
  split; [done|]. intros HK. eexists. split; [by apply cac_rows_total|].
  apply Hrows. by apply cac_rows_total.
Qed.

Lemma C10_positive_hires_numeric_cac_witness :
  ∃ rows, cac_rows scenario_C_hires scenario_C_spend scenario_C_kernel
          = Some rows
    ∧ Forall (λ row, 0 < Total_Hires row ∧ CAC row ≠ CacNA
                     ∧ ∃ x, CAC row = CacNumber x) rows.
Proof.
  apply (C10_positive_hires_numeric_cac scenario_C_hires scenario_C_spend
           scenario_C_kernel).
  - intros r Hr. unfold scenario_C_hires in Hr.
    apply list_elem_of_singleton in Hr as ->. cbn. lia.
  - intros m Hm. unfold hire_months, scenario_C_hires in Hm. cbn in Hm.
    apply list_elem_of_singleton in Hm as ->. vm_compute. reflexivity.
  - apply kernel_ok_scenario_C.
Defined.

(** C10 as the specification words it fails when the sum of line 177
    overflows: two rows of 2^62 hires in one month satisfy the premise,
    their [int64] sum wraps to -2^63, and the row is reported with a
    negative total and ['N/A']. *)
Lemma C10_counterexample :
  ¬ ((∀ r, r ∈ scenario_overflow_hires → 1 ≤ HireAgg.hires r) →
     ∀ rows, cac_rows scenario_overflow_hires scenario_C_spend
               scenario_C_kernel = Some rows →
       Forall (λ row, 0 < Total_Hires row ∧ CAC row ≠ CacNA) rows).
Proof.
  intros Hclaim.
  assert (∀ r, r ∈ scenario_overflow_hires → 1 ≤ HireAgg.hires r) as Hone.
  { intros r Hr. unfold scenario_overflow_hires in Hr.
    repeat (apply elem_of_cons in Hr as [->|Hr]; [cbn; lia|]).
    by apply not_elem_of_nil in Hr. }
  pose proof (Hclaim Hone _ (cac_rows_total scenario_overflow_hires
                               scenario_C_spend scenario_C_kernel
                               kernel_ok_scenario_C)) as Hall.
  rewrite Forall_fmap, Forall_forall in Hall.
  destruct (Hall (ym 2024 Mar)) as [Hpos _].
  - vm_compute. left.
  - vm_compute in Hpos. discriminate Hpos.
Qed.

Example overflow_row :
  hires_in scenario_overflow_hires (ym 2024 Mar) = - 2 ^ 63
  ∧ CAC (expected_row scenario_overflow_hires scenario_C_spend
           scenario_C_kernel (ym 2024 Mar)) = CacNA.
Proof. split; reflexivity. Qed.

(** ** Further properties *)

Example time_bracket_labels_3 :
  time_bracket_label <$> seq 0 3
  = ["End of 1 Month"; "End of 2 Months"; "End of 3 Months"].
Proof. reflexivity. Qed.

Example format_percentage_examples :
  format_percentage (Q2Qc (4 # 10)) = "40.0%"
  ∧ format_percentage 1%Qc = "100.0%"
  ∧ format_percentage (Q2Qc (1 # 800)) = "0.1%"
  ∧ format_percentage (Q2Qc (3 # 800)) = "0.4%"
  ∧ format_percentage (Q2Qc (1 # 3)) = "33.3%".
Proof. by vm_compute. Qed.

(** *** Brackets: counting on the records themselves *)

Lemma hired_rows_lag_length (P : Z → Prop) `{∀ z, Decision (P z)}
    (df : list Application) :
  length (filter (λ row, P (hire_month row - application_month row))
            (hired_rows df))
  = length (filter (λ r, from_option P False (lag r)) df).
Proof.
  unfold hired_rows, lag. induction df as [|r df IH]; [done|].
  rewrite filter_cons. cbn [omap list_omap].
  destruct (successful_date r) as [h|]; cbn.
  - destruct (decide (P (to_period_M h - to_period_M (application_date r))));
      cbn; [by f_equal|exact IH].
  - destruct (decide False) as [[]|_]. exact IH.
Qed.

Lemma lag_count_records df k :
  lag_count (hired_rows df) k
  = length (filter (λ r, lag r = Some (Z.of_nat k)) df).
Proof.
  unfold lag_count.
  etrans; [exact (hired_rows_lag_length (λ z, z = Z.of_nat k) df)|].
  apply length_filter_ext. intros r _.
  destruct (lag r) as [z|]; cbn; [|done].
  split; [by intros ->|by intros [= ->]].
Qed.

Lemma hired_rows_Permutation df df' :
  df ≡ₚ df' → hired_rows df ≡ₚ hired_rows df'.
Proof. intros Hp. unfold hired_rows. by rewrite Hp. Qed.

Lemma hired_rows_app df1 df2 :
  hired_rows (df1 ++ df2) = hired_rows df1 ++ hired_rows df2.
Proof. apply omap_app. Qed.

Lemma hired_rows_filter df :
  hired_rows (filter (λ r, successful_date r ≠ None) df) = hired_rows df.
Proof.
  unfold hired_rows. induction df as [|r df IH]; [done|].
  rewrite filter_cons. cbn [omap list_omap].
  destruct (successful_date r) as [h|] eqn:Hh; cbn.
  - destruct (decide (Some h ≠ None)) as [_|Hn]; [|by destruct Hn].
    cbn [omap list_omap]. rewrite Hh. cbn. by rewrite IH.
  - destruct (decide (None ≠ @None Timestamp)) as [Hn|_]; [by destruct Hn|].
    exact IH.
Qed.

(** Every bracket lies between 0 and 1, hires or not. *)
Lemma compute_time_to_hire_bounds df n :
  Forall (λ e, (0 ≤ e)%Qc ∧ (e ≤ 1)%Qc) (compute_time_to_hire df n).
Proof.
  rewrite compute_time_to_hire_closed.
  apply Forall_fmap, Forall_forall. intros k _. cbn.
  destruct (decide (0 < length (hired_rows df))%nat); [|done].
  apply Qcdiv_bounds.
  - rewrite <-Qc_of_nat_0. apply Qc_of_nat_le. lia.
  - apply Qc_of_nat_le, lag_count_le.
  - by apply Qc_of_nat_pos.
Qed.

(** X1.  Each bracket is a single count over the records: the number of
    records hired exactly [k] months after the month of application,
    divided by the number of records with a hire date. *)
Theorem X1_bracket_single_pass (df : list Application) (num_months k : nat) :
  (k < num_months)%nat →
  (0 < length (filter (λ r, successful_date r ≠ None) df))%nat →
  compute_time_to_hire df num_months !! k
  = Some (Qc_of_nat (length (filter (λ r, lag r = Some (Z.of_nat k)) df))
          / Qc_of_nat (length (filter (λ r, successful_date r ≠ None) df)))%Qc.
Proof.
  intros Hk Hpos. rewrite <-hired_rows_length in *.
  rewrite compute_time_to_hire_closed, list_lookup_fmap, lookup_seq_lt by done.
  cbn. destruct (decide (0 < length (hired_rows df))%nat); [|lia].
  by rewrite lag_count_records.
Qed.

Lemma X1_bracket_single_pass_witness :
  compute_time_to_hire scenario_mixed 3 !! 2%nat
  = Some (Qc_of_nat (length (filter (λ r, lag r = Some (Z.of_nat 2))
                               scenario_mixed))
          / Qc_of_nat (length (filter (λ r, successful_date r ≠ None)
                                 scenario_mixed)))%Qc.
Proof.
  apply (X1_bracket_single_pass scenario_mixed 3 2).
  - lia.
  - vm_compute. lia.
Defined.

Lemma compute_time_to_hire_Permutation df df' n :
  df ≡ₚ df' → compute_time_to_hire df n = compute_time_to_hire df' n.
Proof.
  intros Hp. rewrite !compute_time_to_hire_closed.
  pose proof (hired_rows_Permutation _ _ Hp) as Hrows.
  rewrite (Permutation_length Hrows).
  apply list_fmap_ext. intros _ k _.
  assert (lag_count (hired_rows df) k = lag_count (hired_rows df') k) as ->;
    [|done].
  unfold lag_count. apply Permutation_length. by rewrite Hrows.
Qed.

(** X2.  The brackets do not depend on the order of the records. *)
Theorem X2_brackets_order_independent
    (df df' : list Application) (num_months : nat) :
  df ≡ₚ df' →
  compute_time_to_hire df num_months = compute_time_to_hire df' num_months.
Proof. apply compute_time_to_hire_Permutation. Qed.

Lemma X2_brackets_order_independent_witness :
  compute_time_to_hire scenario_mixed 3
  = compute_time_to_hire (reverse scenario_mixed) 3.
Proof.
  apply X2_brackets_order_independent. symmetry. apply reverse_Permutation.
Defined.

(** X3.  Records without hire date never influence the brackets: the
    result on a table is the result on its hired records alone. *)
Theorem X3_unhired_records_ignored (df : list Application) (num_months : nat) :
  compute_time_to_hire df num_months
  = compute_time_to_hire (filter (λ r, successful_date r ≠ None) df) num_months.
Proof. rewrite !compute_time_to_hire_closed. by rewrite hired_rows_filter. Qed.

Lemma compute_time_to_hire_take df n m :
  (n ≤ m)%nat →
  take n (compute_time_to_hire df m) = compute_time_to_hire df n.
Proof.
  intros Hnm. rewrite !compute_time_to_hire_closed.
  rewrite <-fmap_take, take_seq. do 2 f_equal. lia.
Qed.

(** X4.  A shorter horizon gives a prefix of the longer result: asking for
    [n] brackets is the same as keeping the first [n] of [m ≥ n]. *)
Theorem X4_horizon_prefix (df : list Application) (n m : nat) :
  (n ≤ m)%nat →
  take n (compute_time_to_hire df m) = compute_time_to_hire df n.
Proof. apply compute_time_to_hire_take. Qed.

Lemma X4_horizon_prefix_witness :
  take 3 (compute_time_to_hire scenario_mixed 12)
  = compute_time_to_hire scenario_mixed 3.
Proof. apply X4_horizon_prefix. lia. Defined.

Lemma lag_count_app df1 df2 k :
  lag_count (df1 ++ df2) k = (lag_count df1 k + lag_count df2 k)%nat.
Proof. unfold lag_count. by rewrite filter_app, length_app. Qed.

(** X5.  Pooling two tables adds their bracket counts and their numbers
    of hires, so each pooled bracket is the quotient of the summed counts
    by the summed hires (the average of the two tables' brackets weighted
    by their hires). *)
Theorem X5_pooled_brackets (df1 df2 : list Application) (num_months : nat) :
  bracket_counts (hired_rows (df1 ++ df2)) num_months
  = zip_with Nat.add (bracket_counts (hired_rows df1) num_months)
                     (bracket_counts (hired_rows df2) num_months)
  ∧ length (hired_rows (df1 ++ df2))
    = (length (hired_rows df1) + length (hired_rows df2))%nat
  ∧ compute_time_to_hire (df1 ++ df2) num_months
    = zip_with
        (λ c1 c2,
           if decide (0 < length (hired_rows df1)
                          + length (hired_rows df2))%nat
           then (Qc_of_nat (c1 + c2)
                 / Qc_of_nat (length (hired_rows df1)
                              + length (hired_rows df2)))%Qc
           else 0%Qc)
        (bracket_counts (hired_rows df1) num_months)
        (bracket_counts (hired_rows df2) num_months)
  ∧ compute_time_to_hire_binary64 (df1 ++ df2) num_months
    = zip_with
        (λ c1 c2,
           if decide (0 < length (hired_rows df1)
                          + length (hired_rows df2))%nat
           then PrimFloat.div
                  (binary64_of_nat (c1 + c2))
                  (binary64_of_nat (length (hired_rows df1)
                                    + length (hired_rows df2)))
           else PrimFloat.zero)
        (bracket_counts (hired_rows df1) num_months)
        (bracket_counts (hired_rows df2) num_months).
Proof.
  assert (length (hired_rows (df1 ++ df2))
          = (length (hired_rows df1) + length (hired_rows df2))%nat) as Hlen.
  { by rewrite hired_rows_app, length_app. }
  unfold compute_time_to_hire, compute_time_to_hire_binary64.
  rewrite Hlen, !bracket_counts_closed.
  rewrite !zip_with_fmap_l, !zip_with_fmap_r, !zip_with_diag.
  rewrite <-!list_fmap_compose.
  split_and!; [|done| |]; apply list_fmap_ext; intros _ k _; cbn;
    by rewrite hired_rows_app, lag_count_app.
Qed.

(** *** The kernel table *)

(** X7.  Every vector of the kernel table has exactly twelve entries, each
    between 0 and 1. *)
Theorem X7_kernel_vectors (filtered_df : list Application)
    (m : string) (l : list Qc) :
  month_wise_brackets filtered_df !! m = Some l →
  length l = 12%nat ∧ Forall (λ e, (0 ≤ e)%Qc ∧ (e ≤ 1)%Qc) l.
Proof.
  rewrite month_wise_brackets_lookup.
  destruct (decide (m ∈ month_lookup)); [|done]. intros [= <-]. split.
  - apply compute_time_to_hire_length.
  - apply compute_time_to_hire_bounds.
Qed.

Lemma X7_kernel_vectors_witness :
  length (compute_time_to_hire
            (filter (λ r, month_name r = "Jan") scenario_mixed) 12) = 12%nat
  ∧ Forall (λ e, (0 ≤ e)%Qc ∧ (e ≤ 1)%Qc)
      (compute_time_to_hire
         (filter (λ r, month_name r = "Jan") scenario_mixed) 12).
Proof.
  apply (X7_kernel_vectors scenario_mixed "Jan").
  rewrite month_wise_brackets_lookup.
  destruct (decide ("Jan" ∈ month_lookup)) as [_|Hn]; [done|].
  destruct Hn. unfold month_lookup. left.
Defined.

(** X8.  The vector under a month name is computed from the records
    applied for in a month of that name only, whatever their year: records
    of other months, added to the table, leave it unchanged. *)
Theorem X8_kernel_ignores_other_months
    (filtered_df extra : list Application) (m : string) :
  (∀ r, r ∈ extra → month_name r ≠ m) →
  month_wise_brackets (filtered_df ++ extra) !! m
  = month_wise_brackets filtered_df !! m.
Proof.
  intros Hother. rewrite !month_wise_brackets_lookup.
  destruct (decide (m ∈ month_lookup)); [|done].
  rewrite filter_app.
  assert (filter (λ r, month_name r = m) extra = []) as ->.
  { apply length_zero_iff_nil, length_filter_none. done. }
  by rewrite app_nil_r.
Qed.

Lemma X8_kernel_ignores_other_months_witness :
  month_wise_brackets (scenario_A ++ [application 2019 Feb 3 None]) !! "Jan"
  = month_wise_brackets scenario_A !! "Jan".
Proof.
  apply X8_kernel_ignores_other_months.
  intros r ->%list_elem_of_singleton. discriminate.
Defined.

(** *** The look-back loop *)

Lemma month_abbr_in_lookup (m : Month) : month_abbr m ∈ month_lookup.
Proof. unfold month_lookup. destruct m; cbn; set_solver. Qed.

Lemma sum_Qc_zero (l : list Qc) : Forall (λ x, x = 0%Qc) l → sum_Qc l = 0%Qc.
Proof.
  induction 1 as [|x l -> _ IH]; [done|].
  by rewrite sum_Qc_cons, IH, Qcplus_0_l.
Qed.

Lemma sum_Qc_nonneg (l : list Qc) :
  Forall (λ x, (0 ≤ x)%Qc) l → (0 ≤ sum_Qc l)%Qc.
Proof.
  induction 1 as [|x l Hx _ IH]; [done|].
  rewrite sum_Qc_cons. by apply Qcplus_nonneg_nonneg.
Qed.

Lemma sum_Qc_fmap_le {A} (f g : A → Qc) (l : list A) :
  (∀ x, x ∈ l → (f x ≤ g x)%Qc) → (sum_Qc (f <$> l) ≤ sum_Qc (g <$> l))%Qc.
Proof.
  induction l as [|x l IH]; intros Hfg; [done|].
  rewrite !fmap_cons, !sum_Qc_cons. apply Qcplus_le_compat.
  - apply Hfg. left.
  - apply IH. intros y Hy. apply Hfg. by right.
Qed.

Lemma spend_in_nonneg spend_df m :
  (∀ r, r ∈ spend_df → (0 ≤ monthly_spend r)%Qc) →
  (0 ≤ spend_in spend_df m)%Qc.
Proof.
  intros Hpos. unfold spend_in. apply sum_Qc_nonneg, Forall_fmap, Forall_forall.
  intros r Hr%list_elem_of_filter. apply Hpos, Hr.
Qed.

Lemma kernel_weight_bounds K name i :
  (∀ name l, K !! name = Some l → Forall (λ e, (0 ≤ e)%Qc ∧ (e ≤ 1)%Qc) l) →
  (0 ≤ kernel_weight K name i)%Qc ∧ (kernel_weight K name i ≤ 1)%Qc.
Proof.
  intros HK. unfold kernel_weight, weight_at.
  assert ((0 ≤ 0)%Qc ∧ (0 ≤ 1)%Qc) as Hzero by (split; done).
  destruct (K !! name) as [l|] eqn:Hl.
  - change (default (replicate 12 0%Qc) (Some l)) with l.
    destruct (l !! i) as [w|] eqn:Hw; [|exact Hzero].
    specialize (HK name l Hl). rewrite Forall_forall in HK.
    apply HK. by eapply list_elem_of_lookup_2.
  - change (default (replicate 12 0%Qc) None) with (replicate 12 0%Qc).
    destruct (replicate 12 0%Qc !! i) as [w|] eqn:Hw; [|exact Hzero].
    apply lookup_replicate in Hw as [-> _]. exact Hzero.
Qed.

Lemma weighted_spend_loop_ext spend_df spend_df' K h :
  (∀ i, (i < 12)%nat →
        spend_in spend_df (h - Z.of_nat i)
        = spend_in spend_df' (h - Z.of_nat i)) →
  weighted_spend_loop spend_df K h = weighted_spend_loop spend_df' K h.
Proof.
  intros Hs. unfold weighted_spend_loop.
  assert (Forall (λ i, (i < 12)%nat) (seq 0 12)) as Hl.
  { apply Forall_forall. intros i Hi%elem_of_seq. lia. }
  revert Hl. generalize (Some 0%Qc) (seq 0 12). intros acc l. revert acc.
  induction l as [|i l IH]; intros acc Hl; cbn [foldl]; [done|].
  apply Forall_cons in Hl as [Hi Hl]. rewrite IH by done. f_equal.
  unfold look_back_step. by rewrite (Hs i Hi).
Qed.

Lemma look_back_raises spend_df K h (l : list nat) (acc : option Qc) (i : nat) :
  i ∈ l →
  weight_at K (month_abbr (period_month (h - Z.of_nat i))) i = None →
  foldl (look_back_step spend_df K h) acc l = None.
Proof.
  intros Hi Hw. revert acc.
  induction l as [|j l IH]; intros acc; [by apply not_elem_of_nil in Hi|].
  cbn [foldl]. apply elem_of_cons in Hi as [<-|Hi]; [|by apply IH].
  assert (look_back_step spend_df K h acc i = None) as ->.
  { unfold look_back_step. destruct acc; cbn; [|done]. by rewrite Hw. }
  apply look_back_raised.
Qed.

Lemma cac_rows_ext hire_df hire_df' spend_df spend_df' K :
  hire_months hire_df = hire_months hire_df' →
  (∀ m, m ∈ hire_months hire_df → hires_in hire_df m = hires_in hire_df' m) →
  (∀ m i, m ∈ hire_months hire_df → (i < 12)%nat →
          spend_in spend_df (m - Z.of_nat i)
          = spend_in spend_df' (m - Z.of_nat i)) →
  cac_rows hire_df spend_df K = cac_rows hire_df' spend_df' K.
Proof.
  intros Hm Hh Hs. unfold cac_rows. rewrite <-Hm.
  apply Forall_mapM_ext, Forall_forall. intros m Hin. unfold cac_row.
  rewrite (Hh m Hin), (weighted_spend_loop_ext spend_df spend_df' K m); [done|].
  intros i Hi. by apply Hs.
Qed.

(** X9.  With the kernel table that [month_wise_brackets] builds, the cost
    calculator never fails: every month name the loop asks for is a key of
    the table (the default of [.get] is not used), every index 0..11 is in
    range, and the rows are produced. *)
Theorem X9_real_kernel_never_raises
    (filtered_df : list Application)
    (hire_df : list HireAgg.row) (spend_df : list SpendRow) :
  (∀ p : Z, is_Some (month_wise_brackets filtered_df
                       !! month_abbr (period_month p)))
  ∧ (∀ p i, (i < 12)%nat →
            is_Some (weight_at (month_wise_brackets filtered_df)
                       (month_abbr (period_month p)) i))
  ∧ ∃ rows, cac_rows hire_df spend_df (month_wise_brackets filtered_df)
            = Some rows
            ∧ length rows = length (hire_months hire_df).
Proof.
  split_and!.
  - intros p. rewrite month_wise_brackets_lookup.
    destruct (decide (month_abbr (period_month p) ∈ month_lookup)) as [_|Hn];
      [by eexists|].
    destruct Hn. apply month_abbr_in_lookup.
  - intros p i Hi. apply weight_at_is_Some; [|done].
    apply kernel_ok_month_wise_brackets.
  - eexists. split.
    + apply cac_rows_total, kernel_ok_month_wise_brackets.
    + by rewrite length_fmap.
Qed.

(** X10.  A month name that is no key of the kernel table weighs zero:
    when none of the twelve look-back months has its name in the table,
    the weighted spend is 0 whatever was spent. *)
Theorem X10_missing_names_weigh_zero
    (spend_df : list SpendRow) (K : gmap string (list Qc)) (h : Z) :
  (∀ i, (i < 12)%nat →
        K !! month_abbr (period_month (h - Z.of_nat i)) = None) →
  weighted_spend_loop spend_df K h = Some 0%Qc.
Proof.
  intros Hmiss.
  assert (∀ i, (i < 12)%nat →
            weight_at K (month_abbr (period_month (h - Z.of_nat i))) i
            = Some 0%Qc) as Hw.
  { intros i Hi. unfold weight_at. rewrite (Hmiss i Hi).
    by apply (lookup_replicate_2 12). }
  destruct (look_back_fold_total spend_df K h (seq 0 12) 0%Qc) as [ws Hws].
  { apply Forall_forall. intros i Hi%elem_of_seq. rewrite Hw by lia.
    by eexists. }
  unfold weighted_spend_loop. rewrite Hws. f_equal.
  apply look_back_fold in Hws as ->. apply sum_Qc_zero.
  apply Forall_fmap, Forall_forall. intros i Hi%elem_of_seq. cbn.
  unfold weighted_term, kernel_weight. cbn. rewrite Hw by lia. cbn.
  apply Qcmult_0_r.
Qed.

Lemma X10_missing_names_weigh_zero_witness :
  weighted_spend_loop scenario_C_spend ∅ (ym 2024 Mar) = Some 0%Qc.
Proof.
  apply X10_missing_names_weigh_zero. intros i _. apply lookup_empty.
Defined.

(** X11.  A kernel vector that is too short makes the loop fail: when the
    vector stored under the name of the month [i] months before a hire
    month has no entry [i], no table is produced. *)
Theorem X11_short_vector_raises
    (hire_df : list HireAgg.row) (spend_df : list SpendRow)
    (K : gmap string (list Qc)) (h : Z) (i : nat) (l : list Qc) :
  h ∈ hire_months hire_df → (i < 12)%nat →
  K !! month_abbr (period_month (h - Z.of_nat i)) = Some l →
  (length l ≤ i)%nat →
  cac_rows hire_df spend_df K = None.
Proof.
  intros Hh Hi Hl Hshort. unfold cac_rows.
  apply mapM_None_2, Exists_exists. exists h. split; [done|].
  unfold cac_row, weighted_spend_loop.
  rewrite (look_back_raises spend_df K h (seq 0 12) (Some 0%Qc) i); [done| |].
  - apply elem_of_seq. lia.
  - unfold weight_at. rewrite Hl. cbn. by apply lookup_ge_None.
Qed.

Lemma X11_short_vector_raises_witness :
  cac_rows scenario_C_hires scenario_C_spend
    (<["Feb" := [1%Qc]]> scenario_C_kernel) = None.
Proof.
  apply (X11_short_vector_raises scenario_C_hires scenario_C_spend
           (<["Feb" := [1%Qc]]> scenario_C_kernel) (ym 2024 Mar) 1 [1%Qc]).
  - vm_compute. left.
  - lia.
  - reflexivity.
  - cbn. lia.
Defined.

(** X12.  With spend amounts that are not negative and kernel weights
    between 0 and 1, the weighted spend of a hire month lies between 0 and
    the total spend of the twelve months that end with it. *)
Theorem X12_weighted_spend_bounds
    (spend_df : list SpendRow) (K : gmap string (list Qc)) (h : Z) :
  kernel_ok K →
  (∀ name l, K !! name = Some l → Forall (λ e, (0 ≤ e)%Qc ∧ (e ≤ 1)%Qc) l) →
  (∀ r, r ∈ spend_df → (0 ≤ monthly_spend r)%Qc) →
  ∃ ws, weighted_spend_loop spend_df K h = Some ws
        ∧ (0 ≤ ws)%Qc ∧ (ws ≤ window_spend spend_df h)%Qc.
Proof.
  intros HK Hunit Hpos. eexists. split; [by apply weighted_spend_loop_total|].
  unfold weighted_spend_formula, window_spend. split.
  - apply sum_Qc_nonneg, Forall_fmap, Forall_forall. intros i _. cbn.
    unfold weighted_term. cbn. apply Qcmult_nonneg_nonneg.
    + by apply spend_in_nonneg.
    + by apply kernel_weight_bounds.
  - apply sum_Qc_fmap_le. intros i _. unfold weighted_term. cbn.
    rewrite <-(Qcmult_1_r (spend_in spend_df (h - Z.of_nat i))) at 2.
    apply Qcmult_le_mono_nonneg_l; [by apply spend_in_nonneg|].
    by apply kernel_weight_bounds.
Qed.

Lemma X12_weighted_spend_bounds_witness :
  ∃ ws, weighted_spend_loop scenario_C_spend
          (month_wise_brackets scenario_mixed) (ym 2024 Mar) = Some ws
        ∧ (0 ≤ ws)%Qc
        ∧ (ws ≤ window_spend scenario_C_spend (ym 2024 Mar))%Qc.
Proof.
  apply X12_weighted_spend_bounds.
  - apply kernel_ok_month_wise_brackets.
  - intros name l. rewrite month_wise_brackets_lookup.
    destruct (decide (name ∈ month_lookup)); [|done]. intros [= <-].
    apply compute_time_to_hire_bounds.
  - intros r Hr. unfold scenario_C_spend in Hr.
    repeat (apply elem_of_cons in Hr as [->|Hr]; [done|]).
    by apply not_elem_of_nil in Hr.
Defined.

(** X13.  The weighted spend of a hire month reads the spend of the twelve
    months that end with it and nothing else: spend rows of later months,
    or of months more than eleven months back, can be removed without
    changing it. *)
Theorem X13_look_back_window
    (spend_df : list SpendRow) (K : gmap string (list Qc)) (h : Z) :
  weighted_spend_loop spend_df K h
  = weighted_spend_loop
      (filter (λ r, h - 11 ≤ spend_month r ≤ h) spend_df) K h.
Proof.
  apply weighted_spend_loop_ext. intros i Hi. unfold spend_in. do 2 f_equal.
  induction spend_df as [|r spend_df IH]; [done|].
  rewrite !filter_cons.
  destruct (decide (h - 11 ≤ spend_month r ≤ h)) as [Hin|Hout].
  - rewrite filter_cons.
    destruct (decide (spend_month r = h - Z.of_nat i)); by rewrite IH.
  - destruct (decide (spend_month r = h - Z.of_nat i)); [lia|done].
Qed.

Lemma round2_0 : round2 0%Qc = 0%Qc.
Proof. by apply Qc_is_canon. Qed.

(** X14.  A hire month without spend row in its twelve-month window is
    reported with weighted spend 0, and with CAC 0 when it has hires. *)
Theorem X14_no_spend_in_window
    (hire_df : list HireAgg.row) (spend_df : list SpendRow)
    (K : gmap string (list Qc)) (h : Z) :
  kernel_ok K → h ∈ hire_months hire_df →
  (∀ r, r ∈ spend_df → ¬ (h - 11 ≤ spend_month r ≤ h)) →
  ∃ rows row, cac_rows hire_df spend_df K = Some rows
    ∧ row ∈ rows ∧ Hire_Month row = h
    ∧ Weighted_Spend row = 0%Qc
    ∧ (0 < Total_Hires row → CAC row = CacNumber 0%Qc).
Proof.
  intros HK Hh Hnone.
  exists (expected_row hire_df spend_df K <$> hire_months hire_df),
         (expected_row hire_df spend_df K h).
  assert (weighted_spend_formula spend_df K h = 0%Qc) as Hzero.
  { apply sum_Qc_zero, Forall_fmap, Forall_forall.
    intros i Hi%elem_of_seq. cbn. unfold weighted_term. cbn.
    rewrite spend_in_absent; [apply Qcmult_0_l|].
    intros r Hr Heq. apply (Hnone r Hr). lia. }
  split_and!; [by apply cac_rows_total|by apply list_elem_of_fmap_2|done| |].
  - unfold expected_row. cbn [Weighted_Spend]. rewrite Hzero. apply round2_0.
  - unfold expected_row. cbn [CAC Total_Hires]. rewrite Hzero. intros Hpos.
    destruct (decide (0 < hires_in hire_df h)); [|done].
    by rewrite Qcdiv_0_l, round2_0.
Qed.

Lemma X14_no_spend_in_window_witness :
  ∃ rows row,
    cac_rows scenario_C_hires
      [ {| spend_month := ym 2024 Apr; monthly_spend := Qc_of_Z 500 |};
        {| spend_month := ym 2023 Mar; monthly_spend := Qc_of_Z 700 |} ]
      scenario_C_kernel = Some rows
    ∧ row ∈ rows ∧ Hire_Month row = ym 2024 Mar
    ∧ Weighted_Spend row = 0%Qc
    ∧ (0 < Total_Hires row → CAC row = CacNumber 0%Qc).
Proof.
  apply X14_no_spend_in_window.
  - apply kernel_ok_scenario_C.
  - vm_compute. left.
  - intros r Hr.
    repeat (apply elem_of_cons in Hr as [->|Hr]; [vm_compute; intuition congruence|]).
    by apply not_elem_of_nil in Hr.
Defined.

(** *** Hire counts *)

Lemma sum_Z_fmap_plus {A} (a b : A → Z) (l : list A) :
  sum_Z ((λ x, a x + b x) <$> l) = sum_Z (a <$> l) + sum_Z (b <$> l).
Proof.
  induction l as [|x l IH]; [done|].
  rewrite !fmap_cons, !sum_Z_cons, IH. lia.
Qed.

Lemma sum_Z_fmap_ext {A} (a b : A → Z) (l : list A) :
  (∀ x, x ∈ l → a x = b x) → sum_Z (a <$> l) = sum_Z (b <$> l).
Proof.
  induction l as [|x l IH]; intros Hab; [done|].
  rewrite !fmap_cons, !sum_Z_cons, IH, (Hab x); [done|left|].
  intros y Hy. apply Hab. by right.
Qed.

Lemma sum_Z_fmap_zero {A} (a : A → Z) (l : list A) :
  (∀ x, x ∈ l → a x = 0) → sum_Z (a <$> l) = 0.
Proof.
  induction l as [|x l IH]; intros Ha; [done|].
  rewrite fmap_cons, sum_Z_cons, IH, (Ha x); [done|left|].
  intros y Hy. apply Ha. by right.
Qed.

(** Summing a column month by month, over months without repetition that
    cover the rows, sums it over the rows that carry a month. *)
Lemma sum_Z_by_month {A} (key : A → option Z) (f : A → Z)
    (keys : list Z) (l : list A) :
  NoDup keys → (∀ x m, x ∈ l → key x = Some m → m ∈ keys) →
  sum_Z ((λ c, sum_Z (f <$> filter (λ x, key x = Some c) l)) <$> keys)
  = sum_Z (f <$> filter (λ x, is_Some (key x)) l).
Proof.
  intros Hnd. induction l as [|x l IH]; intros Hkeys.
  - by apply sum_Z_fmap_zero.
  - rewrite (sum_Z_fmap_ext _
      (λ c, (if decide (key x = Some c) then f x else 0)
            + sum_Z (f <$> filter (λ x, key x = Some c) l))).
    2:{ intros c _. rewrite filter_cons.
        destruct (decide (key x = Some c)); [|lia].
        by rewrite fmap_cons, sum_Z_cons. }
    rewrite sum_Z_fmap_plus, IH.
    2:{ intros y m Hy. apply Hkeys. by right. }
    rewrite filter_cons.
    destruct (key x) as [m|] eqn:Hx.
    + destruct (decide (is_Some (Some m))) as [_|Hn]; [|by destruct Hn].
      rewrite fmap_cons, sum_Z_cons. f_equal.
      assert (m ∈ keys) as Hm by (apply (Hkeys x); [left|done]).
      clear -Hnd Hm. induction Hnd as [|c keys Hc Hnd IHk];
        [by apply not_elem_of_nil in Hm|].
      rewrite fmap_cons, sum_Z_cons.
      apply elem_of_cons in Hm as [<-|Hm].
      * destruct (decide (Some m = Some m)); [|done].
        rewrite sum_Z_fmap_zero; [lia|].
        intros c' Hc'. destruct (decide (Some m = Some c')) as [[= <-]|]; done.
      * rewrite IHk by done.
        destruct (decide (Some m = Some c)) as [[= <-]|]; [done|lia].
    + destruct (decide (is_Some (@None Z))) as [[? Hn]|_]; [done|].
      rewrite sum_Z_fmap_zero; [lia|].
      intros c _. by destruct (decide (None = Some c)).
Qed.

(** X15.  When the hire counts of no month overflow an [int64], the
    table accounts for every hire exactly once: the totals of hires of its
    rows add up to the hires of all rows of the hire aggregates that carry
    a month. *)
Theorem X15_total_hires_conserved
    (hire_df : list HireAgg.row) (spend_df : list SpendRow)
    (K : gmap string (list Qc)) (rows : list CacRow) :
  (∀ m, m ∈ hire_months hire_df →
        - 2 ^ 63 ≤ exact_hires hire_df m < 2 ^ 63) →
  cac_rows hire_df spend_df K = Some rows →
  sum_Z (Total_Hires <$> rows)
  = sum_Z (HireAgg.hires
             <$> filter (λ r, is_Some (HireAgg.hire_month r)) hire_df).
Proof.
  intros Hfit ->%cac_rows_Some. rewrite <-list_fmap_compose.
  rewrite <-(sum_Z_by_month HireAgg.hire_month HireAgg.hires
               (hire_months hire_df) hire_df).
  - apply sum_Z_fmap_ext. intros m Hm. cbn.
    rewrite hires_in_exact. by apply wrap_int64_small, Hfit.
  - apply NoDup_hire_months.
  - intros r m Hr Hm. apply elem_of_hire_months. eauto.
Qed.

Lemma X15_total_hires_conserved_witness :
  sum_Z (Total_Hires
           <$> (expected_row scenario_C_hires scenario_C_spend
                  scenario_C_kernel <$> hire_months scenario_C_hires))
  = sum_Z (HireAgg.hires
             <$> filter (λ r, is_Some (HireAgg.hire_month r)) scenario_C_hires).
Proof.
  apply (X15_total_hires_conserved scenario_C_hires scenario_C_spend
           scenario_C_kernel).
  - intros m Hm. unfold hire_months, scenario_C_hires in Hm. cbn in Hm.
    apply list_elem_of_singleton in Hm as ->. vm_compute.
    split; [discriminate|reflexivity].
  - apply cac_rows_total, kernel_ok_scenario_C.
Defined.

(** X16.  Rows of the hire aggregates without month are dropped: they add
    no row to the table and no hire to any month. *)
Theorem X16_null_hire_months_dropped
    (hire_df : list HireAgg.row) (spend_df : list SpendRow)
    (K : gmap string (list Qc)) :
  cac_rows hire_df spend_df K
  = cac_rows (filter (λ r, is_Some (HireAgg.hire_month r)) hire_df) spend_df K.
Proof.
  apply cac_rows_ext; [| |done].
  - unfold hire_months. do 2 f_equal.
    induction hire_df as [|r hire_df IH]; [done|].
    rewrite filter_cons. cbn [omap list_omap].
    destruct (HireAgg.hire_month r) as [m|] eqn:Hm.
    + destruct (decide (is_Some (Some m))) as [_|Hn]; [|by destruct Hn].
      cbn [omap list_omap]. rewrite Hm. by f_equal.
    + destruct (decide (is_Some (@None Z))) as [[? Hn]|_]; [done|]. exact IH.
  - intros m _. unfold hires_in. do 2 f_equal.
    induction hire_df as [|r hire_df IH]; [done|].
    rewrite !filter_cons.
    destruct (decide (HireAgg.hire_month r = Some m)) as [Hm|Hm].
    + destruct (decide (is_Some (HireAgg.hire_month r))) as [_|Hn].
      * rewrite filter_cons. destruct (decide _); [|done]. by f_equal.
      * destruct Hn. by rewrite Hm.
    + destruct (decide (is_Some (HireAgg.hire_month r))); [|done].
      rewrite filter_cons. by destruct (decide _).
Qed.

(** *** The spend aggregation *)

Lemma sorted_unique_ascending (l : list Z) :
  StronglySorted Z.lt (sorted (unique l)).
Proof.
  apply StronglySorted_le_lt; [|apply NoDup_sorted_unique].
  apply Sorted_StronglySorted; [apply _|]. apply sorted_Sorted.
Qed.

(** Selecting by key in a list built from keys without repetition. *)
Lemma filter_fmap_keys {B} (g : Z → B) (f : B → Z) (keys : list Z) (m : Z) :
  (∀ k, f (g k) = k) → NoDup keys →
  filter (λ x, f x = m) (g <$> keys)
  = if decide (m ∈ keys) then [g m] else [].
Proof.
  intros Hfg. induction 1 as [|k keys Hk Hnd IH].
  - destruct (decide (m ∈ [])) as [Hm|_]; [by apply not_elem_of_nil in Hm|done].
  - rewrite fmap_cons, filter_cons, IH, Hfg.
    destruct (decide (k = m)) as [->|Hne].
    + destruct (decide (m ∈ keys)); [done|].
      destruct (decide (m ∈ m :: keys)) as [_|Hn]; [done|].
      destruct Hn. left.
    + destruct (decide (m ∈ keys)) as [Hm|Hm].
      * destruct (decide (m ∈ k :: keys)) as [_|Hn]; [done|].
        destruct Hn. by right.
      * destruct (decide (m ∈ k :: keys)) as [Hin|_]; [|done].
        apply elem_of_cons in Hin as [->|?]; done.
Qed.

Lemma aggregate_spend_months spend_df :
  spend_month <$> aggregate_spend spend_df
  = sorted (unique (fst <$> keyed_spend spend_df)).
Proof.
  unfold aggregate_spend, groupby. rewrite <-!list_fmap_compose.
  induction (sorted (unique (fst <$> keyed_spend spend_df))) as [|k ks IH];
    [done|].
  cbn. by f_equal.
Qed.

Lemma elem_of_keyed_months spend_df (m : Z) :
  m ∈ fst <$> keyed_spend spend_df ↔
  ∃ r, r ∈ spend_df ∧ to_period_M <$> SpendRaw.spend_month r = Some m.
Proof.
  rewrite list_elem_of_fmap. unfold keyed_spend. split.
  - intros ([m' a] & -> & (r & Hr & Hk)%list_elem_of_omap).
    exists r. split; [done|].
    destruct (SpendRaw.spend_month r); by simplify_eq/=.
  - intros (r & Hr & Hm).
    destruct (SpendRaw.spend_month r) as [t|] eqn:Ht; simplify_eq/=.
    exists (to_period_M t, SpendRaw.monthly_spend r). split; [done|].
    apply list_elem_of_omap. exists r. split; [done|]. by rewrite Ht.
Qed.

Lemma keyed_amounts spend_df (m : Z) :
  omap snd (filter (λ p, p.1 = m) (keyed_spend spend_df))
  = omap SpendRaw.monthly_spend
      (filter (λ r, to_period_M <$> SpendRaw.spend_month r = Some m) spend_df).
Proof.
  unfold keyed_spend. induction spend_df as [|r l IH]; [done|].
  rewrite filter_cons. cbn [omap list_omap].
  destruct (SpendRaw.spend_month r) as [t|]; cbn.
  - destruct (decide (Some (to_period_M t) = Some m)) as [[= Heq]|Hne].
    + destruct (decide (to_period_M t = m)); [|done].
      cbn [omap list_omap snd].
      destruct (SpendRaw.monthly_spend r); [by f_equal|exact IH].
    + destruct (decide (to_period_M t = m)) as [Heq|]; [|exact IH].
      destruct Hne. by rewrite Heq.
  - destruct (decide (None = Some m)); [done|]. exact IH.
Qed.

Lemma spend_in_aggregate spend_df (m : Z) :
  spend_in (aggregate_spend spend_df) m
  = sum_Qc (omap SpendRaw.monthly_spend
              (filter (λ r, to_period_M <$> SpendRaw.spend_month r = Some m)
                 spend_df)).
Proof.
  rewrite <-keyed_amounts. unfold spend_in, aggregate_spend, groupby.
  rewrite <-list_fmap_compose.
  rewrite (filter_fmap_keys _ spend_month); [|done|apply NoDup_sorted_unique].
  destruct (decide (m ∈ sorted (unique (fst <$> keyed_spend spend_df))))
    as [_|Hm].
  - rewrite list_fmap_singleton, sum_Qc_cons, sum_Qc_nil, Qcplus_0_r. done.
  - rewrite elem_of_sorted_unique in Hm.
    assert (filter (λ p : Z * option Qc, p.1 = m) (keyed_spend spend_df) = [])
      as ->; [|done].
    apply length_zero_iff_nil, length_filter_none.
    intros p Hp <-. apply Hm. by apply list_elem_of_fmap_2.
Qed.

Lemma spend_in_ungrouped spend_df (m : Z) :
  spend_in (ungrouped_spend spend_df) m
  = sum_Qc (omap SpendRaw.monthly_spend
              (filter (λ r, to_period_M <$> SpendRaw.spend_month r = Some m)
                 spend_df)).
Proof.
  unfold spend_in, ungrouped_spend.
  induction spend_df as [|r l IH]; [done|].
  rewrite filter_cons. cbn [omap list_omap].
  destruct (SpendRaw.spend_month r) as [t|]; cbn [mbind option_bind fmap option_fmap option_map].
  - rewrite filter_cons. cbn [spend_month].
    destruct (decide (Some (to_period_M t) = Some m)) as [[= Heq]|Hne].
    + destruct (decide (to_period_M t = m)); [|done].
      rewrite fmap_cons. cbn [omap list_omap monthly_spend].
      destruct (SpendRaw.monthly_spend r) as [a|]; cbn [default from_option id].
      * rewrite !sum_Qc_cons. by f_equal.
      * rewrite sum_Qc_cons, Qcplus_0_l. exact IH.
    + destruct (decide (to_period_M t = m)) as [Heq|]; [|exact IH].
      destruct Hne. by rewrite Heq.
  - destruct (decide (None = Some m)); [done|]. exact IH.
Qed.

(** X18.  The aggregated spend frame has one row per month that occurs in
    the spend rows, in strictly ascending order of month; rows without
    month form no group. *)
Theorem X18_aggregate_months (spend_df : list SpendRaw.row) :
  StronglySorted Z.lt (spend_month <$> aggregate_spend spend_df)
  ∧ ∀ m, m ∈ spend_month <$> aggregate_spend spend_df ↔
         ∃ r, r ∈ spend_df
              ∧ to_period_M <$> SpendRaw.spend_month r = Some m.
Proof.
  rewrite aggregate_spend_months. split.
  - apply sorted_unique_ascending.
  - intros m. rewrite elem_of_sorted_unique. apply elem_of_keyed_months.
Qed.

(** X19.  Every row of the aggregated frame carries the sum of the amounts
    of its month, null amounts skipped; looking a month up in it gives
    that sum, and 0 for a month that does not occur. *)
Theorem X19_aggregate_amounts (spend_df : list SpendRaw.row) :
  (∀ row, row ∈ aggregate_spend spend_df →
     monthly_spend row
     = sum_Qc (omap SpendRaw.monthly_spend
                 (filter (λ r, to_period_M <$> SpendRaw.spend_month r
                                = Some (spend_month row)) spend_df)))
  ∧ (∀ m, spend_in (aggregate_spend spend_df) m
          = sum_Qc (omap SpendRaw.monthly_spend
                      (filter (λ r, to_period_M <$> SpendRaw.spend_month r
                                     = Some m) spend_df)))
  ∧ (∀ m, (∀ r, r ∈ spend_df →
                to_period_M <$> SpendRaw.spend_month r ≠ Some m) →
          spend_in (aggregate_spend spend_df) m = 0%Qc).
Proof.
  split_and!.
  - intros row Hrow. unfold aggregate_spend, groupby in Hrow.
    rewrite <-list_fmap_compose in Hrow.
    apply list_elem_of_fmap in Hrow as (k & -> & _). cbn.
    by rewrite keyed_amounts.
  - apply spend_in_aggregate.
  - intros m Habs. rewrite spend_in_aggregate.
    assert (filter (λ r, to_period_M <$> SpendRaw.spend_month r = Some m)
              spend_df = []) as ->; [|done].
    apply length_zero_iff_nil, length_filter_none. done.
Qed.

(** X20.  Grouping the spend by month before the look-back changes
    nothing: the cost calculator gives the same table on the aggregated
    frame and on the rows left one by one, because the loop sums the rows
    of a month itself. *)
Theorem X20_aggregation_transparent
    (hire_df : list HireAgg.row) (spend_df : list SpendRaw.row)
    (K : gmap string (list Qc)) :
  cac_rows hire_df (aggregate_spend spend_df) K
  = cac_rows hire_df (ungrouped_spend spend_df) K.
Proof.
  apply cac_rows_ext; [done|done|].
  intros m i _ _. by rewrite spend_in_aggregate, spend_in_ungrouped.
Qed.

Example aggregate_spend_scenario :
  (λ r, (spend_month r, this (monthly_spend r)))
    <$> aggregate_spend (select_spend scenario_sel scenario_spend_raw)
  = [ (ym 2024 Feb, 0%Q); (ym 2024 Mar, 150%Q) ].
Proof. by vm_compute. Qed.

Example hire_frame_scenario :
  hire_frame scenario_sel scenario_hire_raw
  = [ {| HireAgg.hire_month := Some (ym 2024 Mar); HireAgg.hires := 3 |};
      {| HireAgg.hire_month := Some (ym 2024 Feb); HireAgg.hires := 2 |};
      {| HireAgg.hire_month := Some (ym 2024 Mar); HireAgg.hires := 1 |} ].
Proof. reflexivity. Qed.

Example filtered_df_scenario :
  filtered_df scenario_sel scenario_main
  = [ application 2024 Jan 10
        (Some {| year := 2024; month := Feb; day := 5 |});
      application 2024 Jan 12 None ].
Proof. reflexivity. Qed.

(** *** The whole computation from the loaded frames *)

Lemma month_wise_brackets_Permutation df df' :
  df ≡ₚ df' → month_wise_brackets df = month_wise_brackets df'.
Proof.
  intros Hp. apply map_eq. intros m. rewrite !month_wise_brackets_lookup.
  destruct (decide (m ∈ month_lookup)); [|done]. f_equal.
  apply compute_time_to_hire_Permutation. by rewrite Hp.
Qed.

Lemma cac_rows_hire_Permutation hire_df hire_df' spend_df K :
  hire_df ≡ₚ hire_df' →
  cac_rows hire_df spend_df K = cac_rows hire_df' spend_df K.
Proof.
  intros Hp. apply cac_rows_ext; [|intros m _|done].
  - by apply hire_months_Permutation.
  - by apply hires_in_Permutation.
Qed.

Lemma filter_isin_nil {A} (cell : A → option string) (P : A → Prop)
    `{∀ x, Decision (P x)} (l : list A) :
  (∀ x, P x → isin (cell x) []) → filter P l = [].
Proof.
  intros HP. apply length_zero_iff_nil, length_filter_none.
  intros x _ Hx. specialize (HP x Hx). unfold isin in HP.
  destruct (cell x); [by apply not_elem_of_nil in HP|done].
Qed.

(** X22.  From the frames as loaded the cost calculator always produces
    its table.  With no country selected nothing is selected: the
    filtered application table is empty, every bracket is 0 and the table
    of the cost calculator has no row. *)
Theorem X22_cost_calculator_total
    (sel : Selection) (df : list MainDf.row)
    (spend_df : list SpendRaw.row) (hire_df : list HireRaw.row) :
  is_Some (cost_calculator sel df spend_df hire_df)
  ∧ (countries sel = [] →
     filtered_df sel df = []
     ∧ (∀ n, compute_time_to_hire (filtered_df sel df) n = replicate n 0%Qc)
     ∧ cost_calculator sel df spend_df hire_df = Some []).
Proof.
  split.
  - unfold cost_calculator.
    rewrite cac_rows_total by apply kernel_ok_month_wise_brackets.
    by eexists.
  - intros Hnone.
    assert (filtered_df sel df = []) as Hf.
    { unfold filtered_df. rewrite Hnone.
      rewrite (filter_isin_nil MainDf.country); [done|]. tauto. }
    split_and!; [done| |].
    + intros n. rewrite Hf. by apply compute_time_to_hire_no_hires.
    + unfold cost_calculator, hire_frame. rewrite Hnone.
      rewrite (filter_isin_nil HireRaw.country); [done|]. tauto.
Qed.

Lemma X22_cost_calculator_total_witness :
  cost_calculator
    {| nationality := "N1"; location := "L1"; countries := [];
       selected_month_range := selected_month_range scenario_sel |}
    scenario_main scenario_spend_raw scenario_hire_raw = Some [].
Proof.
  apply (X22_cost_calculator_total
           {| nationality := "N1"; location := "L1"; countries := [];
              selected_month_range := selected_month_range scenario_sel |}
           scenario_main scenario_spend_raw scenario_hire_raw).
  reflexivity.
Defined.

(** X23.  The table of the cost calculator does not depend on the order
    of the rows of the application frame or of the hire frame. *)
Theorem X23_cost_calculator_order_independent
    (sel : Selection) (df df' : list MainDf.row)
    (spend_df : list SpendRaw.row) (hire_df hire_df' : list HireRaw.row) :
  df ≡ₚ df' → hire_df ≡ₚ hire_df' →
  cost_calculator sel df spend_df hire_df
  = cost_calculator sel df' spend_df hire_df'.
Proof.
  intros Hd Hh. unfold cost_calculator.
  rewrite (month_wise_brackets_Permutation (filtered_df sel df)
             (filtered_df sel df')).
  2:{ unfold filtered_df. by rewrite Hd. }
  apply cac_rows_hire_Permutation. unfold hire_frame. by rewrite Hh.
Qed.

Lemma X23_cost_calculator_order_independent_witness :
  cost_calculator scenario_sel scenario_main scenario_spend_raw
    scenario_hire_raw
  = cost_calculator scenario_sel (reverse scenario_main)
      scenario_spend_raw (reverse scenario_hire_raw).
Proof.
  apply X23_cost_calculator_order_independent;
    symmetry; apply reverse_Permutation.
Defined.

(** *** The tables of the first two tabs *)

Lemma data_frame_Some {A B} (col1 : list A) (col2 : list B) :
  length col1 = length col2 →
  ∃ t, data_frame col1 col2 = Some t ∧ length t = length col1
       ∧ t.*1 = col1 ∧ t.*2 = col2.
Proof.
  intros Hlen. unfold data_frame. destruct (decide _); [|done].
  eexists. split_and!; [done| | |].
  - rewrite length_zip_with. lia.
  - apply fst_zip. lia.
  - apply snd_zip. lia.
Qed.

(** X24.  The summary table is always built, with one row per requested
    month: its labels are those of the brackets 1 .. [num_months] and its
    percentages the formatted brackets. *)
Theorem X24_summary_built (filtered_df : list Application) (num_months : nat) :
  ∃ t, summary filtered_df num_months = Some t
       ∧ length t = num_months
       ∧ t.*1 = time_bracket_label <$> seq 0 num_months
       ∧ t.*2 = format_percentage
                  <$> compute_time_to_hire filtered_df num_months.
Proof.
  destruct (data_frame_Some (time_bracket_label <$> seq 0 num_months)
              (format_percentage
                 <$> compute_time_to_hire filtered_df num_months))
    as (t & Ht & Hlen & H1 & H2).
  - by rewrite !length_fmap, length_seq, compute_time_to_hire_length.
  - exists t. rewrite length_fmap, length_seq in Hlen. done.
Qed.

Lemma month_name_in_lookup (r : Application) : month_name r ∈ month_lookup.
Proof. apply month_abbr_in_lookup. Qed.

Lemma percentages_month_wise filtered_df m n :
  (n ≤ 12)%nat →
  percentages (month_wise_brackets filtered_df) m n
  = compute_time_to_hire (filter (λ r, month_name r = m) filtered_df) n.
Proof.
  intros Hn. unfold percentages. rewrite month_wise_brackets_lookup.
  destruct (decide (m ∈ month_lookup)) as [Hm|Hm]; cbn [default from_option id].
  - by apply compute_time_to_hire_take.
  - assert (filter (λ r, month_name r = m) filtered_df = []) as ->.
    { apply length_zero_iff_nil, length_filter_none.
      intros r _ <-. apply Hm, month_name_in_lookup. }
    rewrite compute_time_to_hire_no_hires by done.
    rewrite take_replicate. f_equal. lia.
Qed.

(** X25.  For a horizon of at most twelve months the drill-down table of a
    month name is the summary table of the records applied for in a month
    of that name: cutting the stored twelve brackets equals computing with
    the shorter horizon.  For a longer horizon the two columns differ in
    length and no table is built. *)
Theorem X25_drilldown_table
    (filtered_df : list Application) (m : string) (num_months : nat) :
  ((num_months ≤ 12)%nat →
   df_m (month_wise_brackets filtered_df) m num_months
   = summary (filter (λ r, month_name r = m) filtered_df) num_months)
  ∧ ((12 < num_months)%nat →
     df_m (month_wise_brackets filtered_df) m num_months = None).
Proof.
  split; intros Hn; unfold df_m.
  - by rewrite percentages_month_wise.
  - unfold data_frame.
    destruct (decide _) as [Hlen|_]; [|done].
    rewrite !length_fmap, length_seq in Hlen.
    unfold percentages in Hlen. rewrite length_take in Hlen.
    assert (length (default (replicate 12 0%Qc)
                      (month_wise_brackets filtered_df !! m)) = 12%nat) as Hl.
    { rewrite month_wise_brackets_lookup.
      destruct (decide (m ∈ month_lookup)); cbn [default from_option id];
        [apply compute_time_to_hire_length|done]. }
    lia.
Qed.

Lemma X25_drilldown_table_witness :
  df_m (month_wise_brackets scenario_mixed) "Jan" 3
  = summary (filter (λ r, month_name r = "Jan") scenario_mixed) 3
  ∧ df_m (month_wise_brackets scenario_mixed) "Jan" 13 = None.
Proof.
  split.
  - apply (proj1 (X25_drilldown_table scenario_mixed "Jan" 3)). lia.
  - apply (proj2 (X25_drilldown_table scenario_mixed "Jan" 13)). lia.
Defined.

(** *** Seasonal pooling *)

Lemma hired_rows_shift_years y df :
  hired_rows (shift_years y <$> df)
  = (λ row, {| application_month := application_month row + 12 * y;
               hire_month := hire_month row + 12 * y |}) <$> hired_rows df.
Proof.
  unfold hired_rows. induction df as [|r df IH]; [done|].
  rewrite fmap_cons. cbn [omap list_omap]. rewrite IH.
  destruct r as [a [h|]]; cbn; [|done].
  f_equal. unfold to_period_M. cbn. f_equal; lia.
Qed.

Lemma compute_time_to_hire_shift_years y df n :
  compute_time_to_hire (shift_years y <$> df) n = compute_time_to_hire df n.
Proof.
  rewrite !compute_time_to_hire_closed, hired_rows_shift_years, length_fmap.
  apply list_fmap_ext. intros _ k _.
  assert (lag_count
            ((λ row, {| application_month := application_month row + 12 * y;
                        hire_month := hire_month row + 12 * y |})
               <$> hired_rows df) k
          = lag_count (hired_rows df) k) as ->; [|done].
  unfold lag_count. induction (hired_rows df) as [|row rows IH]; [done|].
  rewrite fmap_cons, !filter_cons. cbn.
  destruct (decide (hire_month row + 12 * y
                    - (application_month row + 12 * y) = Z.of_nat k)),
           (decide (hire_month row - application_month row = Z.of_nat k));
    cbn; try lia; by rewrite IH.
Qed.

Lemma filter_month_name_shift_years y m (df : list Application) :
  filter (λ r, month_name r = m) (shift_years y <$> df)
  = shift_years y <$> filter (λ r, month_name r = m) df.
Proof.
  induction df as [|r df IH]; [done|].
  rewrite fmap_cons, !filter_cons, IH.
  change (month_name (shift_years y r)) with (month_name r).
  by destruct (decide (month_name r = m)).
Qed.

(** X26.  Brackets and kernel are seasonal: moving every record by the
    same number of whole years changes neither the brackets nor any
    vector of the kernel table. *)
Theorem X26_year_shift_invariant (y : Z) (df : list Application) (n : nat) :
  compute_time_to_hire (shift_years y <$> df) n = compute_time_to_hire df n
  ∧ month_wise_brackets (shift_years y <$> df) = month_wise_brackets df.
Proof.
  split; [apply compute_time_to_hire_shift_years|].
  apply map_eq. intros m. rewrite !month_wise_brackets_lookup.
  destruct (decide (m ∈ month_lookup)); [|done]. f_equal.
  rewrite filter_month_name_shift_years.
  apply compute_time_to_hire_shift_years.
Qed.

Lemma X9_real_kernel_never_raises_witness :
  is_Some (weight_at (month_wise_brackets scenario_mixed)
             (month_abbr (period_month (ym 2024 Mar))) 5).
Proof.
  apply (proj1 (proj2 (X9_real_kernel_never_raises scenario_mixed
                         scenario_C_hires scenario_C_spend))).
  lia.
Defined.

Lemma X19_aggregate_amounts_witness :
  spend_in (aggregate_spend scenario_spend_raw) (ym 2023 Jan) = 0%Qc.
Proof.
  apply (proj2 (proj2 (X19_aggregate_amounts scenario_spend_raw))).
  intros r Hr. unfold scenario_spend_raw in Hr.
  repeat (apply elem_of_cons in Hr as [->|Hr]; [vm_compute; discriminate|]).
  by apply not_elem_of_nil in Hr.
Defined.
